(** * esbuild-plugins: incremental build controller, sass transformation
      cache and dev-server request gate

    A shallow embedding of
    - [incremental-build] (the watch/rebuild controller, [incrementalBuild]),
    - [src/plugin.ts] (the sass plugin's mtime-keyed cache, [cached]),
    - [packages/esbd/src/esbd-serve.ts] (the request handler),
    and the properties of these programs.

    Asynchronous functions are embedded as tasks that advance one
    continuation at a time: everything between two [await]s is one atomic
    step of the (single-threaded) event loop, and what an awaited promise
    settles to is chosen by the environment. *)

From Stdlib Require Import ZArith QArith Qminmax String Ascii List Lia Bool.
From stdpp Require Import base option list gmap sets strings.
Import ListNotations.

Local Open Scope Z_scope.
Local Open Scope nat_scope.

(* ===================================================================== *)
(** * JavaScript string primitives used by the sources *)
(* ===================================================================== *)

Module Js.

(** A JavaScript string is embedded as a [string]; positions count
    characters.  Every character the sources search for is ASCII, so the
    prefix a search cuts out is the same whether positions count UTF-16
    units or bytes. *)

(** [s.indexOf(t, from)]: [None] stands for [-1]. *)
Definition indexOfFrom (s t : string) (from : nat) : option nat :=
  String.index from t s.

(** [s.indexOf(t)] *)
Definition indexOf (s t : string) : option nat := indexOfFrom s t 0.

(** [s.includes(t)] *)
Definition includes (s t : string) : bool :=
  match indexOf s t with Some _ => true | None => false end.

(** [s.slice(0, stop)] for [0 <= stop] *)
Definition slice0 (s : string) (stop : nat) : string :=
  String.substring 0 stop s.

(** [s.split(c)] for a one-character separator: the pieces between the
    occurrences of [c], in order; never empty. *)
Fixpoint split (c : ascii) (s : string) : list string :=
  match s with
  | EmptyString => [EmptyString]
  | String a s' =>
      if Ascii.eqb a c then EmptyString :: split c s'
      else match split c s' with
           | piece :: pieces => String a piece :: pieces
           | [] => [String a EmptyString]
           end
  end.

(** [s.endsWith(t)] *)
Definition endsWith (s t : string) : bool :=
  let n := String.length s in
  let k := String.length t in
  (k <=? n) && String.eqb (String.substring (n - k) k s) t.

(** [s.replace(/([$`\\])/g, "\\$1")]: a backslash goes before every
    dollar sign, backquote and backslash. *)
Definition needsEscape (a : ascii) : bool :=
  let n := nat_of_ascii a in
  (n =? 36) || (n =? 96) || (n =? 92).

Definition backslash : ascii := ascii_of_nat 92.

Fixpoint escapeTemplate (s : string) : string :=
  match s with
  | EmptyString => EmptyString
  | String a s' =>
      if needsEscape a then String backslash (String a (escapeTemplate s'))
      else String a (escapeTemplate s')
  end.

End Js.


(* ===================================================================== *)
(** * The incremental build controller ([incrementalBuild]) *)
(* ===================================================================== *)

Module IncrementalBuild.

(** The double-quote character of the error messages. *)
Definition dq : string := String (ascii_of_nat 34) EmptyString.

(** ** esbuild's result types *)

(** A function that runs the bundler: the [rebuild] variable holds
    [() => build(options)] at first and the [rebuild] of a result
    afterwards; the result [incrementalBuild] returns carries
    [triggerBuild]. *)
Inductive Handle :=
| InitialBuild
| ResultRebuild (generation : nat)
| TriggerBuild.

Global Instance Handle_eq_dec : EqDecision Handle.
Proof. solve_decision. Defined.

Record OutputFile := { path : string; contents : string }.

(** [inputs] lists [Object.keys(metafile.inputs)], in key order. *)
Record Metafile := { inputs : list string; outputs : list string }.

(** [BuildResult]: [metafile], [outputFiles] and [rebuild] are optional. *)
Module Result.
Record t := make {
  errors : list string;
  warnings : list string;
  metafile : option Metafile;
  outputFiles : option (list OutputFile);
  rebuild : option Handle;
}.
End Result.

(** [BuildIncrementalResult]: the three fields are present. *)
Module Incremental.
Record t := make {
  errors : list string;
  warnings : list string;
  metafile : Metafile;
  outputFiles : list OutputFile;
  rebuild : Handle;
}.

(** A [BuildIncrementalResult] read as a [BuildResult]. *)
Definition toResult (r : t) : Result.t :=
  Result.make (errors r) (warnings r) (Some (metafile r))
              (Some (outputFiles r)) (Some (rebuild r)).
End Incremental.

Definition optionMessage (name value : string) : string :=
  "incrementalBuild: " +:+ dq +:+ name +:+ dq +:+ " option must be "
    +:+ dq +:+ value +:+ dq.

(** [validateResult(result): asserts result is BuildIncrementalResult];
    [inl message] is [throw new Error(message)]. *)
Definition validateResult (result : Result.t) : string + Incremental.t :=
  match Result.metafile result with
  | None => inl (optionMessage "metafile" "true")
  | Some metafile =>
      match Result.outputFiles result with
      | None => inl (optionMessage "write" "false")
      | Some outputFiles =>
          match Result.rebuild result with
          | None => inl (optionMessage "incremental" "true")
          | Some rebuild =>
              inr (Incremental.make (Result.errors result)
                     (Result.warnings result) metafile outputFiles rebuild)
          end
      end
  end.

(** [{ ...NULL_RESULT, rebuild }] *)
Definition NULL_RESULT (rebuild : Handle) : Incremental.t :=
  Incremental.make [] [] {| inputs := []; outputs := [] |} [] rebuild.

(** ** The file watchers *)

(** Modelled from the spec: the file watcher ([watch] of the chokidar
    package, which is not part of the sources).  A watcher holds the
    paths it was asked to watch and its one-shot listeners.  [close]
    stops it fully (the spec: "both watcher subsystems are fully stopped
    (not just paused)", "torn down"): no path stays watched and no
    listener stays registered.  [add] and [unwatch] add and remove
    paths, [once] registers a listener that is removed when it is first
    called. *)
Record Watcher := { paths : gset string; listeners : nat }.

Definition watch : Watcher := {| paths := ∅; listeners := 0 |}.

Definition close (w : Watcher) : Watcher := {| paths := ∅; listeners := 0 |}.

Definition unwatch (ps : list string) (w : Watcher) : Watcher :=
  {| paths := paths w ∖ list_to_set ps; listeners := listeners w |}.

Definition add (ps : gset string) (w : Watcher) : Watcher :=
  {| paths := paths w ∪ ps; listeners := listeners w |}.

Definition once (w : Watcher) : Watcher :=
  {| paths := paths w; listeners := S (listeners w) |}.

Inductive WatcherKind := Inputs | Modules.

(** Whether a change of [file] is seen by the watcher: [inputWatcher]
    watches the files themselves, [moduleWatcher] the directories (a
    file is seen when it lies below a watched directory). *)
Definition sees (k : WatcherKind) (w : Watcher) (file : string) : bool :=
  match k with
  | Inputs => bool_decide (file ∈ paths w)
  | Modules =>
      bool_decide (set_Exists (λ dir, String.prefix (dir +:+ "/") file = true)
                     (paths w))
  end.

(** ** Classification of the metafile's inputs (loop of [triggerBuild]) *)

Definition marker : string := "node_modules".

(** [inputKey.includes(':') ? inputKey.split(':')[1] : inputKey] *)
Definition inputOf (inputKey : string) : string :=
  if Js.includes inputKey ":" then nth 1 (Js.split ":"%char inputKey) EmptyString
  else inputKey.

Inductive Target :=
| Leaf (input : string)       (* watched individually *)
| Package (mod_ : string)     (* watched as a directory *)
| Unwatched.                  (* in node_modules, no [/] found *)

Definition classify (input : string) : Target :=
  match Js.indexOf input marker with
  | Some index =>
      match Js.indexOfFrom input "/" (index + String.length marker + 1) with
      | Some modIndex =>
          if 0 <? modIndex then Package (Js.slice0 input modIndex) else Unwatched
      | None => Unwatched
      end
  | None => Leaf input
  end.

(** One iteration of [for (const inputKey of inputs)], on the pair
    [(addedInputs, addedModules)]. *)
Definition visitInput (watchedInputs watchedModules : gset string)
    (added : gset string * gset string) (inputKey : string)
    : gset string * gset string :=
  match classify (inputOf inputKey) with
  | Package mod_ =>
      if decide (mod_ ∈ watchedModules) then added
      else (added.1, added.2 ∪ {[ mod_ ]})
  | Leaf input =>
      if decide (input ∈ watchedInputs) then added
      else (added.1 ∪ {[ input ]}, added.2)
  | Unwatched => added
  end.

Definition visitInputs (watchedInputs watchedModules : gset string)
    (inputs : list string) : gset string * gset string :=
  fold_left (visitInput watchedInputs watchedModules) inputs (∅, ∅).

(** [watched.forEach(x => { if (!added.has(x)) removed.push(x) })] *)
Definition removedFrom (watched added : gset string) : list string :=
  filter (λ x, x ∉ added) (elements watched).

(** ** The controller's state *)

(** A call of an asynchronous function of the controller, suspended at
    an [await] or settled. *)
Inductive Task :=
| AwaitOnWatchEvent     (* [on*Event]: [onWatchEvent(..)] pending, [.then(triggerBuild)] *)
| AwaitCloseInputs      (* [await inputWatcher.close()] *)
| AwaitCloseModules     (* [await moduleWatcher.close()] *)
| AwaitRebuild          (* [await rebuild()]: the bundler is running *)
| AwaitOnBuildResult (result : Incremental.t)   (* [await onBuildResult(..)] *)
| Returned (result : Incremental.t)             (* [triggerBuild] resolved *)
| Rejected.                                     (* the promise rejected *)

(** The variables [incrementalBuild] closes over, the pending timeouts
    of [startWatchers], the tasks in flight, and two ghost fields:
    [invocations] logs every call [rebuild()], [released] counts the
    promises of [wait()] that have resolved. *)
Record State := mkState {
  rebuild : Handle;
  running : bool;
  evt : nat;                       (* listeners of the 'end' event *)
  watchedInputs : gset string;
  watchedModules : gset string;
  inputWatcher : Watcher;
  moduleWatcher : Watcher;
  timers : nat;
  tasks : list Task;
  invocations : list Handle;
  released : nat;
}.

Definition init : State :=
  mkState InitialBuild false 0 ∅ ∅ watch watch 0 [] [] 0.

Definition setRebuild (h : Handle) (s : State) : State :=
  mkState h (running s) (evt s) (watchedInputs s) (watchedModules s)
    (inputWatcher s) (moduleWatcher s) (timers s) (tasks s)
    (invocations s) (released s).

Definition setRunning (b : bool) (s : State) : State :=
  mkState (rebuild s) b (evt s) (watchedInputs s) (watchedModules s)
    (inputWatcher s) (moduleWatcher s) (timers s) (tasks s)
    (invocations s) (released s).

Definition setInputWatcher (w : Watcher) (s : State) : State :=
  mkState (rebuild s) (running s) (evt s) (watchedInputs s) (watchedModules s)
    w (moduleWatcher s) (timers s) (tasks s) (invocations s) (released s).

Definition setModuleWatcher (w : Watcher) (s : State) : State :=
  mkState (rebuild s) (running s) (evt s) (watchedInputs s) (watchedModules s)
    (inputWatcher s) w (timers s) (tasks s) (invocations s) (released s).

Definition setTimers (n : nat) (s : State) : State :=
  mkState (rebuild s) (running s) (evt s) (watchedInputs s) (watchedModules s)
    (inputWatcher s) (moduleWatcher s) n (tasks s) (invocations s)
    (released s).

Definition setTasks (ts : list Task) (s : State) : State :=
  mkState (rebuild s) (running s) (evt s) (watchedInputs s) (watchedModules s)
    (inputWatcher s) (moduleWatcher s) (timers s) ts (invocations s)
    (released s).

Definition setTask (i : nat) (t : Task) (s : State) : State :=
  setTasks (<[ i := t ]> (tasks s)) s.

(** [rebuild()]: the bundler is invoked through the current handle. *)
Definition invoke (s : State) : State :=
  mkState (rebuild s) (running s) (evt s) (watchedInputs s) (watchedModules s)
    (inputWatcher s) (moduleWatcher s) (timers s) (tasks s)
    (invocations s ++ [rebuild s]) (released s).

(** [evt.emit('end')]: every [once] listener runs and is removed. *)
Definition emitEnd (s : State) : State :=
  mkState (rebuild s) (running s) 0 (watchedInputs s) (watchedModules s)
    (inputWatcher s) (moduleWatcher s) (timers s) (tasks s)
    (invocations s) (released s + evt s).

(** [wait()] *)
Definition wait (s : State) : State :=
  if running s then
    mkState (rebuild s) (running s) (S (evt s)) (watchedInputs s)
      (watchedModules s) (inputWatcher s) (moduleWatcher s) (timers s)
      (tasks s) (invocations s) (released s)
  else
    mkState (rebuild s) (running s) (evt s) (watchedInputs s)
      (watchedModules s) (inputWatcher s) (moduleWatcher s) (timers s)
      (tasks s) (invocations s) (S (released s)).

(** [startWatchers()]: sets the 100 ms timeout. *)
Definition startWatchers (s : State) : State := setTimers (S (timers s)) s.

(** The callback of that timeout. *)
Definition armWatchers (s : State) : State :=
  if running s then s
  else setModuleWatcher (once (moduleWatcher s))
         (setInputWatcher (once (inputWatcher s)) s).

(** ** [triggerBuild], one continuation at a time *)

(** From the call to the first [await]; the call runs as task [i]. *)
Definition triggerBuild_enter (i : nat) (s : State) : State :=
  setTask i AwaitCloseInputs
    (setInputWatcher (close (inputWatcher s)) (setRunning true s)).

(** The [catch] block. *)
Definition triggerBuild_catch (i : nat) (s : State) : State :=
  let s := startWatchers (setRunning false (emitEnd s)) in
  setTask i (Returned (NULL_RESULT (rebuild s))) s.

(** After the [try] block, to [return result]. *)
Definition triggerBuild_finish (i : nat) (result : Incremental.t)
    (s : State) : State :=
  let inputs := inputs (Incremental.metafile result) in
  let added := visitInputs (watchedInputs s) (watchedModules s) inputs in
  let addedInputs := added.1 in
  let addedModules := added.2 in
  let removedInputs := removedFrom (watchedInputs s) addedInputs in
  let removedModules := removedFrom (watchedModules s) addedModules in
  let s := setInputWatcher (unwatch removedInputs (inputWatcher s)) s in
  let s := setModuleWatcher (unwatch removedModules (moduleWatcher s)) s in
  let s := setInputWatcher (add addedInputs (inputWatcher s)) s in
  let s := setModuleWatcher (add addedModules (moduleWatcher s)) s in
  let s := emitEnd s in
  let s := setRunning false s in
  let s := setRebuild (Incremental.rebuild result) s in
  let s := startWatchers s in
  setTask i (Returned result) s.

(** What an awaited promise settles to. *)
Inductive Outcome :=
| Resolves                          (* fulfilled, the value is not used *)
| ResolvesWith (result : Result.t)  (* the bundler's result *)
| Rejects.

(** The continuation of task [i], suspended at [t], when the promise it
    awaits settles to [o]. *)
Definition resume (i : nat) (t : Task) (o : Outcome) (s : State) : State :=
  match t, o with
  | AwaitOnWatchEvent, Resolves => triggerBuild_enter i s
  | AwaitOnWatchEvent, Rejects => setTask i Rejected s   (* [console.error(e)] *)
  | AwaitCloseInputs, Resolves =>
      setTask i AwaitCloseModules
        (setModuleWatcher (close (moduleWatcher s)) s)
  | AwaitCloseInputs, Rejects => setTask i Rejected s
  | AwaitCloseModules, Resolves => setTask i AwaitRebuild (invoke s)
  | AwaitCloseModules, Rejects => setTask i Rejected s
  | AwaitRebuild, ResolvesWith result =>
      match validateResult result with
      | inr result => setTask i (AwaitOnBuildResult result) s
      | inl _ => triggerBuild_catch i s
      end
  | AwaitRebuild, Rejects => triggerBuild_catch i s
  | AwaitOnBuildResult result, Resolves => triggerBuild_finish i result s
  | AwaitOnBuildResult _, Rejects => triggerBuild_catch i s
  | _, _ => s
  end.

(** ** Watch events *)

(** [onInputEvent] and [onModuleEvent], called by each of the [n]
    listeners the watcher had: [if (running) return;], else
    [onWatchEvent] is called and [triggerBuild] chained on it. *)
Definition onEvent (n : nat) (s : State) : State :=
  if running s then s
  else setTasks (tasks s ++ replicate n AwaitOnWatchEvent) s.

(** The watcher of kind [k] is told that [file] changed.  [inputWatcher]
    listens to ['all'], [moduleWatcher] to ['change']. *)
Definition fsEvent (k : WatcherKind) (event file : string) (s : State)
    : State :=
  match k with
  | Inputs =>
      let w := inputWatcher s in
      if sees Inputs w file then
        onEvent (listeners w)
          (setInputWatcher {| paths := paths w; listeners := 0 |} s)
      else s
  | Modules =>
      let w := moduleWatcher s in
      if sees Modules w file && String.eqb event "change" then
        onEvent (listeners w)
          (setModuleWatcher {| paths := paths w; listeners := 0 |} s)
      else s
  end.

(** ** The event loop *)

Inductive Action :=
| CallTriggerBuild                 (* a caller of the returned [rebuild] *)
| CallWait                         (* a caller of the returned [wait] *)
| Resume (i : nat) (o : Outcome)   (* the promise task [i] awaits settles *)
| TimerFires                       (* a timeout of [startWatchers] expires *)
| FsEvent (k : WatcherKind) (event file : string).

Definition step (a : Action) (s : State) : State :=
  match a with
  | CallTriggerBuild =>
      let i := length (tasks s) in
      triggerBuild_enter i (setTasks (tasks s ++ [AwaitCloseInputs]) s)
  | CallWait => wait s
  | Resume i o =>
      match tasks s !! i with
      | Some t => resume i t o s
      | None => s
      end
  | TimerFires =>
      match timers s with
      | 0 => s
      | S n => armWatchers (setTimers n s)
      end
  | FsEvent k event file => fsEvent k event file s
  end.

Definition run (trace : list Action) (s : State) : State :=
  fold_left (λ s a, step a s) trace s.

(** ** [incrementalBuild] *)

Inductive Completion :=
| Pending                            (* [await triggerBuild()] not settled *)
| Throws (message : option string)   (* rejected; [None]: an error of a callee *)
| Returns (result : Incremental.t).  (* [{ ...initialResult, rebuild: triggerBuild, wait }] *)

(** The body of [incrementalBuild]: the first [triggerBuild()] is task 0
    and [outcomes] is what its awaited promises settle to, in order. *)
Definition incrementalBuild (outcomes : list Outcome) : State * Completion :=
  let s := run (CallTriggerBuild :: map (Resume 0) outcomes) init in
  match tasks s !! 0 with
  | Some (Returned initialResult) =>
      match validateResult (Incremental.toResult initialResult) with
      | inr r =>
          (s, Returns (Incremental.make (Incremental.errors r)
                         (Incremental.warnings r) (Incremental.metafile r)
                         (Incremental.outputFiles r) TriggerBuild))
      | inl message => (s, Throws (Some message))
      end
  | Some Rejected => (s, Throws None)
  | _ => (s, Pending)
  end.

End IncrementalBuild.

(* ===================================================================== *)
(** * The sass plugin's cache ([src/plugin.ts]) *)
(* ===================================================================== *)

Module SassPlugin.

Definition nl : string := String (ascii_of_nat 10) EmptyString.
Definition dq : string := String (ascii_of_nat 34) EmptyString.

(** ** Module templates *)

Definition cssTextModule (cssText : string) : string :=
  "export default `" +:+ nl +:+ Js.escapeTemplate cssText +:+ "`;" +:+ nl.

Definition cssResultModule (cssText : string) : string :=
  "import {css} from " +:+ dq +:+ "lit-element" +:+ dq +:+ ";" +:+ nl
    +:+ "export default css`" +:+ nl
    +:+ Js.escapeTemplate cssText +:+ "`;" +:+ nl.

Definition styleModule (cssText : string) : string :=
  "document.head" +:+ nl
    +:+ "    .appendChild(document.createElement(" +:+ dq +:+ "style" +:+ dq
    +:+ "))" +:+ nl
    +:+ "    .appendChild(document.createTextNode(`" +:+ nl
    +:+ Js.escapeTemplate cssText +:+ "`));" +:+ nl.

Definition makeModule (contents type : string) : string :=
  if String.eqb type "style" then styleModule contents
  else if String.eqb type "lit-css" then cssResultModule contents
       else cssTextModule contents.

(** ** Data *)

Record OnResolveArgs := {
  path : string;
  resolveDir : string;
  importer : string;
}.

Module Load.
(** [OnLoadResult] *)
Record t := make {
  contents : string;
  loader : string;
  resolveDir : string;
  watchFiles : list string;
}.
End Load.

(** [CachedResult]; [mtimeMs] is a number of milliseconds, of which the
    code uses the order only ([>] and [Math.max]). *)
Record CachedResult := {
  type : string;
  mtimeMs : Q;
  result : Load.t;
}.

(** [Map<string, Map<string, CachedResult>>] *)
Abbreviation Group := (gmap string CachedResult).
Abbreviation Cache := (gmap string (gmap string CachedResult)).

(** ** Computations that update the cache and may throw *)

(** What a call leaves behind: the cache, and (ghost) the calls of
    [transform] made so far, oldest first. *)
Record Store := { cache : Cache; transforms : list (string * string) }.

Inductive Res (A : Type) :=
| Ok (a : A)
| Throw (error : string).
Arguments Ok {A} a.
Arguments Throw {A} error.

(** A computation keeps the updates it made before it threw. *)
Definition M (A : Type) : Type := Store → Store * Res A.

Definition ret {A} (a : A) : M A := λ st, (st, Ok a).

Definition bind {A B} (m : M A) (k : A → M B) : M B :=
  λ st, match m st with
        | (st', Ok a) => k a st'
        | (st', Throw e) => (st', Throw e)
        end.

Definition lift {A} (r : Res A) : M A := λ st, (st, r).

Notation "'let*' x ':=' m 'in' k" := (bind m (λ x, k))
  (at level 10, x name, m at level 100, k at level 200).

Definition getCache : M Cache := λ st, (st, Ok (cache st)).

Definition setCache (c : Cache) : M unit :=
  λ st, ({| cache := c; transforms := transforms st |}, Ok tt).

Definition logTransform (file type : string) : M unit :=
  λ st, ({| cache := cache st; transforms := transforms st ++ [(file, type)] |},
         Ok tt).

(** [maxMtimeMs]: [stats.reduce((max, {mtimeMs}) => Math.max(max, mtimeMs), 0)] *)
Definition maxMtimeMs (stats : list Q) : Q :=
  fold_left (λ max mtimeMs, Qminmax.Qmax max mtimeMs) stats 0%Q.

(** [a > b] on numbers *)
Definition gt (a b : Q) : bool := negb (Qle_bool a b).

Section Plugin.

(** The plugin's collaborators: the file system, the sass compiler,
    the options and [path.dirname]. *)
Variable stat : string → option Q.         (* [fsp.stat(f)]: the [mtimeMs], or it rejects *)
Variable readFileSync : string → Res string.
Variable sassRenderSync : string → Res (string * list string).   (* css, includedFiles *)
Variable optionsTransform : option (string → string → Res string).
Variable dirname : string → string.
Variable typeOf : OnResolveArgs → string.

(** [collectStats]: [Promise.all] of the [stat]s *)
Fixpoint collectStats (watchFiles : list string) : Res (list Q) :=
  match watchFiles with
  | [] => Ok []
  | filename :: rest =>
      match stat filename with
      | None => Throw ("ENOENT: " +:+ filename)
      | Some mtimeMs =>
          match collectStats rest with
          | Ok stats => Ok (mtimeMs :: stats)
          | Throw e => Throw e
          end
      end
  end.

Definition readCssFileSync (path : string) : Res (string * list string) :=
  match readFileSync path with
  | Ok css => Ok (css, [path])
  | Throw e => Throw e
  end.

Definition renderSync (file : string) : Res (string * list string) :=
  sassRenderSync file.

(** [transform(path, type)], without the ghost log *)
Definition transformResult (path type : string) : Res Load.t :=
  match (if Js.endsWith path ".css" then readCssFileSync path
         else renderSync path) with
  | Throw e => Throw e
  | Ok (css, watchFiles) =>
      match (match optionsTransform with
             | Some f => f css (dirname path)
             | None => Ok css
             end) with
      | Throw e => Throw e
      | Ok css =>
          Ok (if String.eqb type "css"
              then Load.make css "css" (dirname path) watchFiles
              else Load.make (makeModule css type) "js" (dirname path)
                     watchFiles)
      end
  end.

Definition transform (path type : string) : M Load.t :=
  let* _ := logTransform path type in
  lift (transformResult path type).

(** [group.set(args.path, entry)], the group being the one stored
    under [resolveDir]. *)
Definition setEntry (resolveDir path : string) (entry : CachedResult)
    : M unit :=
  let* c := getCache in
  setCache (<[ resolveDir := <[ path := entry ]> (default ∅ (c !! resolveDir)) ]> c).

(** The [for (const {mtimeMs} of stats)] loop of the hit branch, on
    the stats not yet visited. *)
Fixpoint refresh (resolveDir path : string) (cached : CachedResult)
    (allStats : list Q) (stats : list Q) : M CachedResult :=
  match stats with
  | [] => ret cached
  | mtimeMs :: rest =>
      if gt mtimeMs (SassPlugin.mtimeMs cached) then
        let* r := match Load.watchFiles (result cached) with
            | first :: _ => transform first (type cached)
            | [] => lift (Throw "TypeError")
            end in
        let cached' :=
          {| type := type cached; mtimeMs := maxMtimeMs allStats;
             result := r |} in
        let* _ := setEntry resolveDir path cached' in
        ret cached'
      else refresh resolveDir path cached allStats rest
  end.

(** [cached(resolve, transform)] applied to [{pluginData: args}], when
    the plugin has a cache. *)
Definition cached (resolve : OnResolveArgs → Res string)
    (args : OnResolveArgs) : M Load.t :=
  let* c := getCache in
  let* group := match c !! SassPlugin.resolveDir args with
          | Some group => ret group
          | None =>
              let* _ := setCache (<[ SassPlugin.resolveDir args := ∅ ]> c) in
              ret (∅ : Group)
          end in
  match group !! path args with
  | Some cached =>
      let watchFiles := Load.watchFiles (result cached) in
      let* stats := lift (collectStats watchFiles) in
      let* cached := refresh (SassPlugin.resolveDir args) (path args) cached
                 stats stats in
      ret (result cached)
  | None =>
      let* filename := lift (resolve args) in
      let type := typeOf args in
      let* result := transform filename type in
      let* stats := lift (collectStats (Load.watchFiles result)) in
      let* _ := setEntry (SassPlugin.resolveDir args) (path args)
            {| type := type; mtimeMs := maxMtimeMs stats; result := result |} in
      ret result
  end.

(** The entry stored for a (scope, path) key. *)
Definition entry (st : Store) (scope path : string) : option CachedResult :=
  cache st !! scope ≫= (λ group, group !! path).

End Plugin.

(** The store a miss works on: the group of the scope exists. *)
Definition withGroup (scope : string) (st : Store) : Store :=
  match cache st !! scope with
  | Some _ => st
  | None => {| cache := <[ scope := ∅ ]> (cache st);
               transforms := transforms st |}
  end.

End SassPlugin.

(* ===================================================================== *)
(** * The dev server's request handler ([esbd-serve.ts]) *)
(* ===================================================================== *)

Module Serve.

(** A JavaScript string used as a condition: only the empty string is
    falsy. *)
Definition truthy (s : string) : bool :=
  match s with EmptyString => false | String _ _ => true end.

(** The part of [esbdServe]'s configuration the handler reads.
    [indexPath] is
    [path.resolve(absOutDir, allWriteOptions[0].template.outputPath)]. *)
Record Config := {
  absOutDir : string;
  servedir : option string;
  rewrite : bool;
  publicPath : string;
  indexPath : string;
}.

(** [req.url] is [undefined] or a string. *)
Record Request := { url : option string }.

Section Server.

(** The collaborators: the state of the disk when a middleware runs,
    the [serve-static] middleware, the live-reload handler, the [URL]
    constructor and the rewriting of [req.url] by the [publicPath]
    regular expression. *)
Variable Disk : Type.
Variable StaticReply : Type.
Variable URL : Type.
(** [serveStatic(root, { fallthrough })(req, res, next)]: [Some reply]
    when the middleware ends the response itself, [None] when it
    calls [next], with an error or without one (the [next] that
    [handleRequest] passes ignores its argument). *)
Variable serveStatic : Disk → string → bool → Request → option StaticReply.
Variable lrHandler : option (Request → bool).
(** [new URL(req.url, rootUrl)]: [None] when the constructor throws. *)
Variable parseURL : string → option URL.
(** [new URL(url.pathname.replace(new RegExp(`^${publicPath}`), ''),
    rootUrl).toString()], the new [req.url]: [None] when [new RegExp] or
    [new URL] throws. *)
Variable stripPublicPath : string → URL → option string.

Inductive Response :=
| Static (reply : StaticReply)      (* a [serve-static] middleware answered *)
| IndexHtml (file : string)         (* the stream of the HTML entry's output *)
| NotFound                          (* 404, [text/plain] *)
| ServerError.                      (* 500, written by the [catch] of [handleRequest()] *)

Definition Handler : Type := Request → (unit → Response) → Response.

Definition middleware (disk : Disk) (root : string) (fallthrough : bool)
    : Handler :=
  λ req next,
    match serveStatic disk root fallthrough req with
    | Some reply => Static reply
    | None => next tt
    end.

Definition outputHandler (cfg : Config) (disk : Disk) : Handler :=
  middleware disk (absOutDir cfg) false.

(** [servedir ? serveStatic(servedir, { fallthrough: true }) : undefined] *)
Definition servedirHandler (cfg : Config) (disk : Disk) : option Handler :=
  match servedir cfg with
  | Some dir => if truthy dir then Some (middleware disk dir true) else None
  | None => None
  end.

Definition staticHandler (cfg : Config) (disk : Disk) : Handler :=
  match servedirHandler cfg disk with
  | Some servedirHandler =>
      λ req next,
        servedirHandler req (λ _, outputHandler cfg disk req next)
  | None => λ req next, outputHandler cfg disk req next
  end.

(** [if (publicPath) { req.url = ... }]: the request the static handlers
    get, [None] when the rewriting throws. *)
Definition served (cfg : Config) (parsed : URL) (req : Request)
    : option Request :=
  if truthy (publicPath cfg) then
    match stripPublicPath (publicPath cfg) parsed with
    | Some u => Some {| url := Some u |}
    | None => None
    end
  else Some req.

(** [handleRequest] after [await context.wait()], on the disk as it is
    then, with the [catch] handler chained on it: an exception of the
    rewriting is answered with status 500. *)
Definition handleRequest_settled (cfg : Config) (disk : Disk)
    (parsed : URL) (req : Request) : Response :=
  match served cfg parsed req with
  | Some req =>
      staticHandler cfg disk req
        (λ _, if rewrite cfg then IndexHtml (indexPath cfg) else NotFound)
  | None => ServerError
  end.

(** A request in the server. *)
Inductive Phase :=
| Ignored                  (* [if (!req.url) return;] *)
| Threw                    (* [new URL] threw: the exception leaves the callback *)
| Livereload               (* the live-reload handler took it *)
| AwaitWait (parsed : URL) (* [handleRequest] is at [await context.wait()] *)
| Responded (r : Response).

(** The callback of [createServer], to the first [await]: the
    controller's [wait()] is called for a request that is handled
    here. *)
Definition onRequest (req : Request) (ctl : IncrementalBuild.State)
    : IncrementalBuild.State * Phase :=
  match url req with
  | None => (ctl, Ignored)
  | Some u =>
      if truthy u then
        match parseURL u with
        | None => (ctl, Threw)
        | Some parsed =>
            let handled := match lrHandler with
                           | Some h => h req
                           | None => false
                           end in
            if handled then (ctl, Livereload)
            else (IncrementalBuild.wait ctl, AwaitWait parsed)
        end
      else (ctl, Ignored)
  end.

(** The continuation of [handleRequest] once the promise of [wait()]
    has resolved. *)
Definition onSettled (cfg : Config) (disk : Disk) (req : Request)
    (p : Phase) : Phase :=
  match p with
  | AwaitWait parsed => Responded (handleRequest_settled cfg disk parsed req)
  | _ => p
  end.

End Server.

Arguments Static {StaticReply} reply.
Arguments IndexHtml {StaticReply} file.
Arguments NotFound {StaticReply}.
Arguments ServerError {StaticReply}.
Arguments Ignored {StaticReply URL}.
Arguments Threw {StaticReply URL}.
Arguments Livereload {StaticReply URL}.
Arguments AwaitWait {StaticReply URL} parsed.
Arguments Responded {StaticReply URL} r.
Arguments onRequest {StaticReply URL} lrHandler parseURL req ctl.
Arguments onSettled {Disk StaticReply URL} serveStatic stripPublicPath cfg
  disk req p.
Arguments handleRequest_settled {Disk StaticReply URL} serveStatic
  stripPublicPath cfg disk parsed req.
Arguments staticHandler {Disk StaticReply} serveStatic cfg disk.
Arguments served {URL} stripPublicPath cfg parsed req.

(** The secondary static root, when one is configured. *)
Definition secondaryRoot (cfg : Config) : option string :=
  match servedir cfg with
  | Some dir => if truthy dir then Some dir else None
  | None => None
  end.

(** Neither static middleware answers [req]. *)
Definition unanswered {Disk StaticReply : Type}
    (serveStatic : Disk → string → bool → Request → option StaticReply)
    (cfg : Config) (disk : Disk) (req : Request) : Prop :=
  (∀ dir, secondaryRoot cfg = Some dir → serveStatic disk dir true req = None)
  ∧ serveStatic disk (absOutDir cfg) false req = None.

End Serve.

(* ===================================================================== *)
(** * Specification vocabulary *)
(* ===================================================================== *)

Module Spec.

Import IncrementalBuild.

(** [t] occurs in [s]. *)
Definition occurs (t s : string) : Prop := ∃ a b, s = a +:+ t +:+ b.

(** [dir] is the top-level dependency directory of [input]: the prefix
    of [input] that ends with the first path segment after the first
    [node_modules] (and the character that follows it). *)
Definition topLevelDirectory (input dir : string) : Prop :=
  ∃ pre c seg rest,
    input = pre +:+ marker +:+ String c seg +:+ "/" +:+ rest
    ∧ (∀ a b, input = a +:+ marker +:+ b → String.length pre ≤ String.length a)
    ∧ ¬ occurs "/" seg
    ∧ dir = pre +:+ marker +:+ String c seg.

(** The path the loop of [triggerBuild] takes from a key of the
    metafile's inputs: the key itself when it holds no colon; otherwise
    what stands between its first colon and its second, or its end when
    there is no second colon. *)
Definition keyPath (key p : string) : Prop :=
  (¬ occurs ":" key ∧ p = key)
  ∨ ∃ scheme rest,
      key = scheme +:+ ":" +:+ rest ∧ ¬ occurs ":" scheme
      ∧ ((¬ occurs ":" rest ∧ p = rest)
         ∨ ∃ tail, rest = p +:+ ":" +:+ tail ∧ ¬ occurs ":" p).

(** A call of [triggerBuild] that has not returned: a build in flight. *)
Definition building (t : Task) : bool :=
  match t with
  | AwaitCloseInputs | AwaitCloseModules | AwaitRebuild
  | AwaitOnBuildResult _ => true
  | _ => false
  end.

(** The states the controller can be in. *)
Definition reachable (s : State) : Prop := ∃ trace, s = run trace init.

(** A task that has settled. *)
Definition settled (t : Task) : bool :=
  match t with Returned _ | Rejected => true | _ => false end.

(** Nothing is in flight and no timeout is pending: without a new call
    or watch event the controller does nothing more. *)
Definition quiescent (s : State) : Prop :=
  running s = false ∧ timers s = 0 ∧ forallb settled (tasks s) = true.

(** Actions that are no continuation of a task and no call of
    [triggerBuild]. *)
Definition quiet (a : Action) : bool :=
  match a with
  | CallWait | TimerFires | FsEvent _ _ _ => true
  | CallTriggerBuild | Resume _ _ => false
  end.

(** Actions of the controller itself: continuations and timeouts. *)
Definition internal (a : Action) : bool :=
  match a with
  | Resume _ _ | TimerFires => true
  | _ => false
  end.

(** Task [i] is a [triggerBuild] suspended at [t]; [ci] and [cm] tell
    whether it has closed the input and the module watcher already. *)
Definition inFlight (i : nat) (t : Task) (ci cm : bool) (s : State) : Prop :=
  running s = true
  ∧ tasks s !! i = Some t
  ∧ watchedInputs s = ∅ ∧ watchedModules s = ∅
  ∧ (ci = true → paths (inputWatcher s) = ∅)
  ∧ (cm = true → paths (moduleWatcher s) = ∅).

(** [n] calls of [triggerBuild] made in a row, the first running as task
    [base]; then each of them continues up to [await rebuild()]. *)
Definition concurrentCalls (base n : nat) : list Action :=
  replicate n CallTriggerBuild
    ++ flat_map (λ j, [Resume (base + j) Resolves; Resume (base + j) Resolves])
         (seq 0 n).

(** Two states that differ at most in how many listeners the watchers
    have. *)
Definition sameButListeners (s1 s2 : State) : Prop :=
  rebuild s1 = rebuild s2 ∧ running s1 = running s2 ∧ evt s1 = evt s2
  ∧ watchedInputs s1 = watchedInputs s2
  ∧ watchedModules s1 = watchedModules s2
  ∧ paths (inputWatcher s1) = paths (inputWatcher s2)
  ∧ paths (moduleWatcher s1) = paths (moduleWatcher s2)
  ∧ timers s1 = timers s2 ∧ tasks s1 = tasks s2
  ∧ invocations s1 = invocations s2 ∧ released s1 = released s2.

End Spec.

(* ===================================================================== *)
(** * Example runs *)
(* ===================================================================== *)

Module Examples.

Import IncrementalBuild.

Definition generation (n : nat) (inputs : list string) : Incremental.t :=
  Incremental.make [] [] {| inputs := inputs; outputs := [] |} []
    (ResultRebuild n).

(** The actions of one build run as task [i] whose bundler returns
    [r] and whose hook resolves. *)
Definition build (i : nat) (r : Incremental.t) : list Action :=
  [Resume i Resolves; Resume i Resolves;
   Resume i (ResolvesWith (Incremental.toResult r)); Resume i Resolves].

Definition gen1 : Incremental.t :=
  generation 1 ["src/old.ts"; "node_modules/old/index.js"].

Definition gen2 : Incremental.t :=
  generation 2 ["src/a.ts"; "sass:src/s.scss"; "../node_modules/pkg/lib/index.js"].

Definition genA : Incremental.t := generation 2 ["src/a.ts"].

Definition genB : Incremental.t := generation 3 ["src/b.ts"].

(** After the first build and the arming timeout. *)
Definition armed1 : State :=
  run (CallTriggerBuild :: build 0 gen1 ++ [TimerFires]) init.

(** A rebuild started by an edit of [src/old.ts], waiting for the
    bundler. *)
Definition rebuilding : State :=
  run [FsEvent Inputs "change" "src/old.ts"; Resume 1 Resolves;
       Resume 1 Resolves; Resume 1 Resolves] armed1.

(** The first build, still waiting for the bundler. *)
Definition building : State :=
  run [CallTriggerBuild; Resume 0 Resolves; Resume 0 Resolves] init.

End Examples.

Module CacheExamples.

Import SassPlugin.

Definition stat (f : string) : option Q :=
  if String.eqb f "src/a.scss" then Some 200%Q
  else if String.eqb f "src/b.scss" then Some 150%Q
       else None.

Definition readFileSync (f : string) : Res string := Ok "body{}".

Definition sassRenderSync (f : string) : Res (string * list string) :=
  if String.eqb f "src/bad.scss" then Throw "Undefined variable"
  else Ok ("a{b:c}", ["src/a.scss"; "src/b.scss"]).

Definition dirname (f : string) : string := "src".

Definition typeOf (args : OnResolveArgs) : string := "css".

Definition resolve (args : OnResolveArgs) : Res string :=
  Ok ("src/" +:+ path args).

Definition args (file : string) : OnResolveArgs :=
  {| path := file; resolveDir := "src"; importer := "src/index.ts" |}.

(** An entry computed when both files were older. *)
Definition old : CachedResult :=
  {| type := "css"; mtimeMs := 100%Q;
     result := Load.make "a{}" "css" "src" ["src/a.scss"; "src/b.scss"] |}.

Definition stale : Store :=
  {| cache := {[ "src" := {[ "a.scss" := old ]} ]}; transforms := [] |}.

Definition empty : Store := {| cache := ∅; transforms := [] |}.

Definition lookup (file : string) (st : Store) : Store * Res Load.t :=
  cached stat readFileSync sassRenderSync None dirname typeOf resolve
    (args file) st.

End CacheExamples.

Module ServeExamples.

Import Serve.

Definition cfg : Config :=
  {| absOutDir := "/app/dist"; servedir := Some "/app/public";
     rewrite := true; publicPath := EmptyString;
     indexPath := "/app/dist/index.html" |}.

(** The same server with a public path. *)
Definition cfgPublic : Config :=
  {| absOutDir := "/app/dist"; servedir := Some "/app/public";
     rewrite := true; publicPath := "/static";
     indexPath := "/app/dist/index.html" |}.

(** Both roots hold [/app.js]. *)
Definition serveStatic (disk : unit) (root : string) (fallthrough : bool)
    (req : Request) : option string :=
  match url req with
  | Some u => if String.eqb u "/app.js" then Some (root +:+ u) else None
  | None => None
  end.

(** [new URL(u, rootUrl)] on the request lines used here: [//] has no
    host and is refused; of the others the path name is kept. *)
Definition parseURL (u : string) : option string :=
  if String.eqb u "//" then None else Some u.

(** The public path is no pattern here: it is cut off when the path name
    starts with it; what is left is given to [new URL]. *)
Definition stripPublicPath (publicPath pathname : string) : option string :=
  let rest := if String.prefix publicPath pathname
              then String.substring (String.length publicPath)
                     (String.length pathname - String.length publicPath)
                     pathname
              else pathname in
  parseURL rest.

Definition req : Request := {| url := Some "/app.js" |}.

End ServeExamples.

(* ===================================================================== *)
(** * The controller: disposal and the course of one build *)
(* ===================================================================== *)

Module Lifecycle.

Import IncrementalBuild.

(** [triggerBuild.dispose], to its first [await]: [rebuild.dispose()] is
    called on the current handle (the first component) and
    [inputWatcher.close()] is called.  The first handle,
    [() => build(options)], is an arrow function and has no [dispose]:
    the call throws, [dispose()] rejects and nothing is closed ([None]).
    The [rebuild] of a result has one. *)
Definition dispose_enter (s : State) : option Handle * State :=
  match rebuild s with
  | InitialBuild => (None, s)
  | h => (Some h, setInputWatcher (close (inputWatcher s)) s)
  end.

(** The continuation of [dispose] after [await inputWatcher.close()]. *)
Definition dispose_resume (s : State) : State :=
  setModuleWatcher (close (moduleWatcher s)) s.

Definition watcherOf (k : WatcherKind) (s : State) : Watcher :=
  match k with Inputs => inputWatcher s | Modules => moduleWatcher s end.

(** The watcher of kind [k] passes the event on to its listeners. *)
Definition delivered (k : WatcherKind) (event file : string) (s : State)
    : bool :=
  match k with
  | Inputs => sees Inputs (inputWatcher s) file
  | Modules => sees Modules (moduleWatcher s) file && String.eqb event "change"
  end.

(** One call of [triggerBuild] as task [i], up to [await rebuild()], with
    the actions [q1], [q2] and [q3] in between its continuations. *)
Definition untilBundler (i : nat) (q1 q2 q3 : list Action) : list Action :=
  CallTriggerBuild :: q1 ++ Resume i Resolves :: q2 ++ Resume i Resolves :: q3.

(** A build whose bundler returns [result] and whose hook resolves. *)
Definition successful (i : nat) (q1 q2 q3 q4 : list Action)
    (result : Result.t) : list Action :=
  untilBundler i q1 q2 q3
    ++ Resume i (ResolvesWith result) :: q4 ++ [Resume i Resolves].

(** A build whose bundler returns [result] and whose hook rejects. *)
Definition hookRejects (i : nat) (q1 q2 q3 q4 : list Action)
    (result : Result.t) : list Action :=
  untilBundler i q1 q2 q3
    ++ Resume i (ResolvesWith result) :: q4 ++ [Resume i Rejects].

(** A build whose bundler promise settles to [o]. *)
Definition bundlerSettles (i : nat) (q1 q2 q3 : list Action) (o : Outcome)
    : list Action :=
  untilBundler i q1 q2 q3 ++ [Resume i o].

(** The watch events [events], one after the other. *)
Definition fsEvents (events : list (WatcherKind * string * string))
    : list Action :=
  map (λ e, FsEvent e.1.1 e.1.2 e.2) events.

(** Task [i] is a [triggerBuild] suspended at [t] that has closed the
    input watcher and, when [cm] is set, the module watcher too; [h] is
    the handle, [inv] the log of invocations and [n] bounds the pending
    timeouts. *)
Definition phase (cm : bool) (h : Handle) (inv : list Handle) (n i : nat)
    (t : Task) (s : State) : Prop :=
  running s = true
  ∧ tasks s !! i = Some t
  ∧ watchedInputs s = ∅ ∧ watchedModules s = ∅
  ∧ inputWatcher s = watch ∧ (cm = true → moduleWatcher s = watch)
  ∧ rebuild s = h ∧ invocations s = inv ∧ timers s ≤ n.

(** The build of a task suspended at [t] fails when its promise settles
    to [o]: the bundler rejects or returns a result that is not valid, or
    the hook rejects. *)
Definition fails (t : Task) (o : Outcome) : Prop :=
  match t, o with
  | AwaitRebuild, Rejects => True
  | AwaitRebuild, ResolvesWith result => ∃ m, validateResult result = inl m
  | AwaitOnBuildResult _, Rejects => True
  | _, _ => False
  end.

(** Events, timeouts and continuations: everything but a new call of
    [triggerBuild] or [wait]. *)
Definition spontaneous (a : Action) : bool :=
  match a with
  | CallTriggerBuild | CallWait => false
  | Resume _ _ | TimerFires | FsEvent _ _ _ => true
  end.

End Lifecycle.

(* ===================================================================== *)
(** * The sass plugin: types of a module, loading without a cache *)
(* ===================================================================== *)

Module SassOptions.

Import SassPlugin.

(** The second component of an entry of [options.type]: an array
    [[importerPattern, pathPattern?]], or a string, or nothing. *)
Inductive Pattern :=
| Pair (importerPattern : string) (pathPattern : option string)
| Single (pathPattern : option string).

(** [options.type]: a string, an array of [[type, pattern]], or unset. *)
Inductive TypeOption :=
| TypeString (type : string)
| TypeArray (entries : list (string * Pattern))
| TypeUnset.

(** [typeof options.type === "string" ? options.type : "css"] *)
Definition defaultType (o : TypeOption) : string :=
  match o with TypeString type => type | _ => "css" end.

Section Matchers.

(** [picomatch(glob, options.picomatch)] and [path.resolve]. *)
Variable picomatch : string → string → bool.
Variable pathResolve : string → string → string.

(** The matcher built for one entry of [options.type]. *)
Definition isMatch (pattern : Pattern) (args : OnResolveArgs) : bool :=
  match pattern with
  | Pair p0 p1 =>
      let importerMatcher := picomatch ("**/" +:+ p0) in
      match (match p1 with
             | Some p => if Serve.truthy p then Some (picomatch ("**/" +:+ p))
                         else None
             | None => None
             end) with
      | Some pathMatcher =>
          importerMatcher (importer args)
          && pathMatcher (pathResolve (resolveDir args) (path args))
      | None => importerMatcher (importer args)
      end
  | Single (Some p) =>
      if Serve.truthy p
      then picomatch ("**/" +:+ p) (pathResolve (resolveDir args) (path args))
      else true
  | Single None => true
  end.

(** [for (const [type, isMatch] of matchers) if (isMatch(args)) return type;
    return type;] *)
Fixpoint firstMatch (matchers : list (string * Pattern)) (type : string)
    (args : OnResolveArgs) : string :=
  match matchers with
  | [] => type
  | (t, pattern) :: rest =>
      if isMatch pattern args then t else firstMatch rest type args
  end.

Definition typeOf (o : TypeOption) (args : OnResolveArgs) : string :=
  match o with
  | TypeArray entries => firstMatch entries (defaultType o) args
  | _ => defaultType o
  end.

End Matchers.

(** [cached(resolve, transform)] when the plugin has no cache:
    [transform(resolve(args), typeOf(args))]. *)
Definition load (readFileSync : string → Res string)
    (sassRenderSync : string → Res (string * list string))
    (optionsTransform : option (string → string → Res string))
    (dirname : string → string) (typeOf : OnResolveArgs → string)
    (resolve : OnResolveArgs → Res string) (args : OnResolveArgs) : M Load.t :=
  let* filename := lift (resolve args) in
  transform readFileSync sassRenderSync optionsTransform dirname filename
    (typeOf args).

(** The value of a template literal without substitutions whose text is
    [s], for the escapes [escapeTemplate] writes: a backslash stands for
    the dollar sign, backquote or backslash after it, and a carriage
    return, alone or before a line feed, is read as one line feed, as in
    every template literal.  [None] when [s] holds a bare dollar sign or
    backquote, or another escape. *)
Definition cr : ascii := ascii_of_nat 13.
Definition lf : ascii := ascii_of_nat 10.

Fixpoint cook (s : string) : option string :=
  match s with
  | EmptyString => Some EmptyString
  | String a s' =>
      if Ascii.eqb a Js.backslash then
        match s' with
        | String b s'' =>
            if Js.needsEscape b then
              match cook s'' with
              | Some v => Some (String b v)
              | None => None
              end
            else None
        | EmptyString => None
        end
      else if Js.needsEscape a then None
      else if Ascii.eqb a cr then
        match s' with
        | String b s'' =>
            if Ascii.eqb b lf then
              match cook s'' with
              | Some v => Some (String lf v)
              | None => None
              end
            else match cook s' with
                 | Some v => Some (String lf v)
                 | None => None
                 end
        | EmptyString => Some (String lf EmptyString)
        end
      else match cook s' with
           | Some v => Some (String a v)
           | None => None
           end
  end.

End SassOptions.

Module LookupExamples.

Import SassPlugin SassOptions.

(** An entry whose result lists no watch file. *)
Definition constant : CachedResult :=
  {| type := "css"; mtimeMs := 0%Q; result := Load.make "a{}" "css" "src" [] |}.

Definition noDependencies : Store :=
  {| cache := {[ "src" := {[ "c.scss" := constant ]} ]}; transforms := [] |}.

(** An entry one of whose watch files is gone. *)
Definition orphan : CachedResult :=
  {| type := "css"; mtimeMs := 100%Q;
     result := Load.make "a{}" "css" "src" ["src/a.scss"; "src/gone.scss"] |}.

Definition orphaned : Store :=
  {| cache := {[ "src" := {[ "o.scss" := orphan ]} ]}; transforms := [] |}.

(** Globs that match by suffix, as a stand-in for [picomatch]. *)
Definition picomatch (glob file : string) : bool :=
  Js.endsWith file (String.substring 3 (String.length glob - 3) glob).

Definition pathResolve (dir file : string) : string := dir +:+ "/" +:+ file.

Definition types : TypeOption :=
  TypeArray [("style", Pair "main.ts" None);
             ("lit-css", Single (Some ".lit.scss"));
             ("css-text", Single None);
             ("css", Single (Some ".scss"))].

End LookupExamples.

(* ===================================================================== *)
(** * Facts about the string primitives *)
(* ===================================================================== *)

Section JsFacts.

Lemma app_empty (s : string) : EmptyString +:+ s = s.
Proof. reflexivity. Qed.

Lemma app_String (a : ascii) (s t : string) :
  String a s +:+ t = String a (s +:+ t).
Proof. reflexivity. Qed.

Lemma prefix_app (t s : string) :
  String.prefix t s = true → ∃ rest, s = t +:+ rest.
Proof.
  revert s; induction t as [|a t IH]; intros s H.
  - exists s; reflexivity.
  - destruct s as [|b s]; simpl in H; [discriminate|].
    destruct (ascii_dec a b) as [->|]; [|discriminate].
    destruct (IH _ H) as [rest ->]. exists rest; reflexivity.
Qed.

Lemma app_prefix (t rest : string) : String.prefix t (t +:+ rest) = true.
Proof.
  induction t as [|a t IH]; simpl.
  - destruct rest; reflexivity.
  - destruct (ascii_dec a a); [exact IH|congruence].
Qed.

Lemma index_here (t : string) (b : ascii) (s : string) :
  String.index 0 t (String b s) =
    if String.prefix t (String b s) then Some 0
    else match String.index 0 t s with Some n => Some (S n) | None => None end.
Proof. reflexivity. Qed.

Lemma index_later (t : string) (b : ascii) (s : string) (from : nat) :
  String.index (S from) t (String b s) =
    match String.index from t s with Some n => Some (S n) | None => None end.
Proof. reflexivity. Qed.

(** A found index splits the string around the first occurrence at or
    after [from]. *)
Lemma index_split (t : string) :
  ∀ (s : string) (from m : nat),
    String.index from t s = Some m →
    ∃ pre post, s = pre +:+ t +:+ post ∧ String.length pre = m ∧ from ≤ m.
Proof.
  induction s as [|b s IH]; intros from m H.
  - destruct from; simpl in H; [|discriminate].
    destruct t; [|discriminate]. injection H as <-.
    exists EmptyString, EmptyString; repeat split; lia.
  - destruct from as [|from];
      [rewrite index_here in H|rewrite index_later in H].
    + destruct (String.prefix t (String b s)) eqn:Hp.
      * injection H as <-. apply prefix_app in Hp as [rest Hr].
        exists EmptyString, rest; simpl; repeat split; [exact Hr|lia].
      * destruct (String.index 0 t s) as [k|] eqn:Hk; [|discriminate].
        injection H as <-.
        destruct (IH _ _ Hk) as (pre & post & -> & Hl & _).
        exists (String b pre), post; simpl; repeat split; [lia|lia].
    + destruct (String.index from t s) as [k|] eqn:Hk; [|discriminate].
      injection H as <-.
      destruct (IH _ _ Hk) as (pre & post & -> & Hl & Hle).
      exists (String b pre), post; simpl; repeat split; lia.
Qed.

(** No occurrence starts earlier (but not before [from]). *)
Lemma index_first (t : string) :
  ∀ (s : string) (from m : nat),
    String.index from t s = Some m →
    ∀ pre post, s = pre +:+ t +:+ post → from ≤ String.length pre →
                m ≤ String.length pre.
Proof.
  induction s as [|b s IH]; intros from m H pre post Hs Hle.
  - destruct from; simpl in H; [|discriminate].
    destruct t; [|discriminate]. injection H as <-. lia.
  - destruct from as [|from];
      [rewrite index_here in H|rewrite index_later in H].
    + destruct (String.prefix t (String b s)) eqn:Hp.
      * injection H as <-. lia.
      * destruct (String.index 0 t s) as [k|] eqn:Hk; [|discriminate].
        injection H as <-.
        destruct pre as [|a pre].
        -- rewrite app_empty in Hs. rewrite Hs, app_prefix in Hp. discriminate.
        -- rewrite app_String in Hs. injection Hs as -> ->.
           simpl. apply le_n_S. eapply IH; [exact Hk|reflexivity|lia].
    + destruct (String.index from t s) as [k|] eqn:Hk; [|discriminate].
      injection H as <-.
      destruct pre as [|a pre]; simpl in Hle; [lia|].
      rewrite app_String in Hs. injection Hs as -> ->.
      simpl. apply le_n_S. eapply IH; [exact Hk|reflexivity|lia].
Qed.

(** [None] means no occurrence at or after [from]. *)
Lemma index_none (t : string) :
  ∀ (s : string) (from : nat),
    String.index from t s = None →
    ∀ pre post, s = pre +:+ t +:+ post → String.length pre < from.
Proof.
  induction s as [|b s IH]; intros from H pre post Hs.
  - destruct pre; [|discriminate]. simpl in Hs.
    destruct t; [|discriminate].
    destruct from; simpl in H; [discriminate|simpl; lia].
  - destruct from as [|from];
      [rewrite index_here in H|rewrite index_later in H].
    + destruct (String.prefix t (String b s)) eqn:Hp; [discriminate|].
      destruct (String.index 0 t s) as [k|] eqn:Hk; [discriminate|].
      destruct pre as [|a pre].
      * rewrite app_empty in Hs. rewrite Hs, app_prefix in Hp. discriminate.
      * rewrite app_String in Hs. injection Hs as -> ->.
        specialize (IH _ Hk _ _ eq_refl). lia.
    + destruct (String.index from t s) as [k|] eqn:Hk; [discriminate|].
      destruct pre as [|a pre]; [simpl; lia|].
      rewrite app_String in Hs. injection Hs as -> ->.
      specialize (IH _ Hk _ _ eq_refl). simpl. lia.
Qed.

Lemma substring_app_length (pre post : string) :
  String.substring 0 (String.length pre) (pre +:+ post) = pre.
Proof.
  induction pre as [|a pre IH].
  - rewrite app_empty. destruct post; reflexivity.
  - rewrite app_String. cbn [String.length String.substring]. now rewrite IH.
Qed.

Lemma strlen_app (a b : string) :
  String.length (a +:+ b) = String.length a + String.length b.
Proof.
  induction a as [|c a IH]; [reflexivity|].
  rewrite app_String. cbn [String.length]. now rewrite IH.
Qed.

Lemma app_assoc_s (a b c : string) : (a +:+ b) +:+ c = a +:+ b +:+ c.
Proof.
  induction a as [|x a IH]; [reflexivity|].
  rewrite !app_String. now rewrite IH.
Qed.

End JsFacts.

(* ===================================================================== *)
(** * The classification of inputs *)
(* ===================================================================== *)

Module ClassifyFacts.

Import IncrementalBuild Spec.

Ltac norm_app :=
  repeat first [rewrite app_assoc_s | rewrite app_String | rewrite app_empty].

Lemma app_eq_split (u v x y : string) :
  u +:+ v = x +:+ y → String.length u ≤ String.length x →
  ∃ w, x = u +:+ w ∧ v = w +:+ y.
Proof.
  revert x; induction u as [|a u IH]; intros x H Hle.
  - exists x; split; [reflexivity|exact H].
  - destruct x as [|b x]; [simpl in Hle; lia|].
    rewrite !app_String in H. injection H as -> H.
    destruct (IH x H) as (w & -> & ->); [simpl in Hle; lia|].
    exists w; split; reflexivity.
Qed.

Lemma includes_occurs (s t : string) :
  Js.includes s t = true ↔ occurs t s.
Proof.
  unfold Js.includes, Js.indexOf, Js.indexOfFrom, occurs. split.
  - destruct (String.index 0 t s) as [m|] eqn:H; [|discriminate].
    intros _. destruct (index_split _ _ _ _ H) as (a & b & -> & _).
    exists a, b; reflexivity.
  - intros (a & b & Hs).
    destruct (String.index 0 t s) as [m|] eqn:H; [reflexivity|].
    pose proof (index_none _ _ _ H _ _ Hs). lia.
Qed.

Lemma not_includes_occurs (s t : string) :
  Js.includes s t = false ↔ ¬ occurs t s.
Proof.
  rewrite <- includes_occurs. destruct (Js.includes s t); split;
    congruence.
Qed.

Lemma classify_leaf (input : string) :
  ¬ occurs marker input → classify input = Leaf input.
Proof.
  intros H. apply not_includes_occurs in H. unfold Js.includes in H.
  unfold classify. destruct (Js.indexOf input marker); [discriminate|].
  reflexivity.
Qed.

Lemma classify_leaf_inv (input x : string) :
  classify input = Leaf x → x = input ∧ ¬ occurs marker input.
Proof.
  unfold classify. intros H.
  destruct (Js.indexOf input marker) as [index|] eqn:Hi.
  - destruct (Js.indexOfFrom _ _ _) as [m|]; [|discriminate].
    destruct (0 <? m); discriminate.
  - injection H as <-. split; [reflexivity|].
    apply not_includes_occurs. unfold Js.includes. now rewrite Hi.
Qed.

(** The directory [classify] cuts out is the top-level dependency
    directory. *)
Lemma classify_package (input dir : string) :
  classify input = Package dir → topLevelDirectory input dir.
Proof.
  unfold classify, Js.indexOf, Js.indexOfFrom, Js.slice0. intros H.
  destruct (String.index 0 marker input) as [index|] eqn:Hi; [|discriminate].
  destruct (String.index (index + String.length marker + 1) "/" input)
    as [m|] eqn:Hm; [|discriminate].
  destruct (0 <? m); [|discriminate]. injection H as <-.
  destruct (index_split _ _ _ _ Hi) as (pre & post & Hs & Hpre & _).
  destruct (index_split _ _ _ _ Hm) as (a & rest & Ha & Hlen & Hfrom).
  assert (Hsplit : ∃ w, a = (pre +:+ marker) +:+ w ∧ post = w +:+ "/" +:+ rest).
  { apply app_eq_split.
    - rewrite app_assoc_s, <- Hs. exact Ha.
    - rewrite strlen_app. lia. }
  destruct Hsplit as (w & Hw & Hpost).
  destruct w as [|c seg].
  { rewrite Hw, !strlen_app in Hlen. cbn [String.length] in Hlen. lia. }
  exists pre, c, seg, rest. repeat split.
  - rewrite Hs, Hpost. reflexivity.
  - intros a' b' Ha'. rewrite Hpre.
    eapply index_first; [exact Hi|exact Ha'|lia].
  - intros (x & y & ->).
    assert (Hle : m ≤ String.length (pre +:+ marker +:+ String c x)).
    { eapply index_first; [exact Hm| |].
      - rewrite Hs, Hpost. norm_app. reflexivity.
      - rewrite !strlen_app. cbn [String.length]. lia. }
    rewrite <- Hlen, Hw, !strlen_app in Hle. cbn [String.length] in Hle.
    rewrite !strlen_app in Hle. cbn [String.length] in Hle. lia.
  - rewrite Ha, <- Hlen, substring_app_length, Hw. norm_app. reflexivity.
Qed.

(** Conversely, the top-level dependency directory is what [classify]
    cuts out. *)
Lemma package_classify (input dir : string) :
  topLevelDirectory input dir → classify input = Package dir.
Proof.
  intros (pre & c & seg & rest & Hs & Hfirst & Hseg & ->).
  unfold classify, Js.indexOf, Js.indexOfFrom, Js.slice0.
  destruct (String.index 0 marker input) as [index|] eqn:Hi.
  2:{ pose proof (index_none _ _ _ Hi _ _ Hs). lia. }
  assert (Hindex : index = String.length pre).
  { apply Nat.le_antisymm.
    - eapply index_first; [exact Hi|exact Hs|lia].
    - destruct (index_split _ _ _ _ Hi) as (a & b & Ha & <- & _).
      eapply Hfirst; exact Ha. }
  subst index.
  set (dir := pre +:+ marker +:+ String c seg).
  assert (Hdir : input = dir +:+ "/" +:+ rest).
  { rewrite Hs. unfold dir. norm_app. reflexivity. }
  assert (Hlen : String.length dir
                 = String.length pre + String.length marker + 1
                   + String.length seg).
  { unfold dir. rewrite !strlen_app. cbn [String.length]. lia. }
  destruct (String.index (String.length pre + String.length marker + 1)
              "/" input) as [m|] eqn:Hm.
  2:{ pose proof (index_none _ _ _ Hm _ _ Hdir). lia. }
  assert (Hmle : m ≤ String.length dir).
  { eapply index_first; [exact Hm|exact Hdir|lia]. }
  destruct (index_split _ _ _ _ Hm) as (a & b & Ha & Hla & Hfrom).
  assert (m = String.length dir) as ->.
  { destruct (Nat.eq_dec m (String.length dir)) as [|Hne]; [assumption|].
    exfalso. apply Hseg.
    (* the [/] found at [m] would lie inside [seg] *)
    assert (H1 : ∃ w, a = (pre +:+ marker +:+ String c EmptyString) +:+ w
                      ∧ seg +:+ "/" +:+ rest = w +:+ "/" +:+ b).
    { apply app_eq_split.
      - rewrite <- Ha, Hs. norm_app. reflexivity.
      - rewrite !strlen_app. cbn [String.length]. lia. }
    destruct H1 as (w & Hw & Hrest).
    assert (Hwl : String.length w < String.length seg).
    { rewrite Hw, !strlen_app in Hla. cbn [String.length] in Hla. lia. }
    symmetry in Hrest.
    destruct (app_eq_split _ _ _ _ Hrest) as (z & Hz & _); [lia|].
    destruct z as [|d z].
    { rewrite Hz, strlen_app in Hwl. cbn [String.length] in Hwl. lia. }
    assert (Hd : String d z +:+ "/" +:+ rest = "/" +:+ b).
    { rewrite Hz, app_assoc_s in Hrest.
      revert Hrest. clear. induction w as [|e w IH]; intros H.
      - symmetry. exact H.
      - rewrite !app_String in H. injection H as H. exact (IH H). }
    rewrite app_String in Hd. injection Hd as -> Hd.
    exists w, z. exact Hz. }
  assert ((0 <? String.length dir) = true) as ->.
  { apply Nat.ltb_lt. lia. }
  rewrite Hdir, substring_app_length. reflexivity.
Qed.

Lemma classify_package_iff (input dir : string) :
  classify input = Package dir ↔ topLevelDirectory input dir.
Proof. split; [apply classify_package|apply package_classify]. Qed.

End ClassifyFacts.

(* ===================================================================== *)
(** * The controller: watch sets *)
(* ===================================================================== *)

Module WatchFacts.

Import IncrementalBuild Spec ClassifyFacts.

Lemma run_app (tr1 tr2 : list Action) (s : State) :
  run (tr1 ++ tr2) s = run tr2 (run tr1 s).
Proof. unfold run. apply fold_left_app. Qed.

Lemma run_cons (a : Action) (tr : list Action) (s : State) :
  run (a :: tr) s = run tr (step a s).
Proof. reflexivity. Qed.

Lemma reachable_run (tr : list Action) (s : State) :
  reachable s → reachable (run tr s).
Proof. intros [tr0 ->]. exists (tr0 ++ tr). now rewrite run_app. Qed.

(** [resume] is the continuation [step] runs. *)
Lemma step_resume (i : nat) (t : Task) (o : Outcome) (s : State) :
  tasks s !! i = Some t → step (Resume i o) s = resume i t o s.
Proof. intros H. simpl. now rewrite H. Qed.

(** *** Nothing writes [watchedInputs] and [watchedModules] *)

Lemma step_watched (a : Action) (s : State) :
  watchedInputs (step a s) = watchedInputs s
  ∧ watchedModules (step a s) = watchedModules s.
Proof.
  destruct a as [| |i o| |k event file]; simpl.
  - split; reflexivity.
  - unfold wait. destruct (running s); split; reflexivity.
  - destruct (tasks s !! i) as [t|]; [|split; reflexivity].
    destruct t, o; simpl; try (split; reflexivity).
    destruct (validateResult result); split; reflexivity.
  - destruct (timers s); [split; reflexivity|].
    unfold armWatchers. simpl. destruct (running s); split; reflexivity.
  - unfold fsEvent, onEvent.
    destruct k; simpl;
      repeat match goal with
             | |- context [if ?b then _ else _] => destruct b; simpl
             end; split; reflexivity.
Qed.

Lemma run_watched (tr : list Action) (s : State) :
  watchedInputs (run tr s) = watchedInputs s
  ∧ watchedModules (run tr s) = watchedModules s.
Proof.
  revert s; induction tr as [|a tr IH]; intros s; [split; reflexivity|].
  rewrite run_cons. destruct (IH (step a s)) as [-> ->]. apply step_watched.
Qed.

Lemma reachable_watched (s : State) :
  reachable s → watchedInputs s = ∅ ∧ watchedModules s = ∅.
Proof. intros [tr ->]. apply run_watched. Qed.

(** *** What the loop over the inputs adds *)

Lemma visitInput_spec (added : gset string * gset string) (key x : string) :
  let out := visitInput ∅ ∅ added key in
  (x ∈ out.1 ↔ x ∈ added.1 ∨ classify (inputOf key) = Leaf x)
  ∧ (x ∈ out.2 ↔ x ∈ added.2 ∨ classify (inputOf key) = Package x).
Proof.
  unfold visitInput.
  destruct (classify (inputOf key)) as [input|dir|].
  - destruct (decide (input ∈ (∅ : gset string))) as [Hin|_];
      [set_solver|].
    cbn [fst snd]. rewrite elem_of_union, elem_of_singleton.
    split; split; intros H; try tauto.
    + destruct H as [H| ->]; auto.
    + destruct H as [H|H]; [auto|]. injection H as ->. auto.
    + destruct H as [H|H]; [auto|discriminate].
  - destruct (decide (dir ∈ (∅ : gset string))) as [Hin|_];
      [set_solver|].
    cbn [fst snd]. rewrite elem_of_union, elem_of_singleton.
    split; split; intros H; try tauto.
    + destruct H as [H|H]; [auto|discriminate].
    + destruct H as [H| ->]; auto.
    + destruct H as [H|H]; [auto|]. injection H as ->. auto.
  - split; split; intros H; try tauto;
      (destruct H as [H|H]; [auto|discriminate]).
Qed.

Lemma visitInputs_fold (inputs : list string) :
  ∀ (added : gset string * gset string) (x : string),
    let out := fold_left (visitInput ∅ ∅) inputs added in
    (x ∈ out.1 ↔
       x ∈ added.1 ∨ ∃ key, key ∈ inputs ∧ classify (inputOf key) = Leaf x)
    ∧ (x ∈ out.2 ↔
         x ∈ added.2 ∨ ∃ key, key ∈ inputs ∧ classify (inputOf key) = Package x).
Proof.
  induction inputs as [|k inputs IH]; intros added x; cbn [fold_left].
  - cbv zeta.
    split; (split; [auto|intros [H|(key & H & _)]; [exact H|]]);
      apply elem_of_nil in H; contradiction.
  - destruct (IH (visitInput ∅ ∅ added k) x) as [IH1 IH2].
    destruct (visitInput_spec added k x) as [S1 S2].
    cbv zeta in *. split.
    + rewrite IH1, S1. split.
      * intros [[H|H]|(key & Hk & Hc)].
        -- left; exact H.
        -- right; exists k; split; [left|exact H].
        -- right; exists key; split; [right; exact Hk|exact Hc].
      * intros [H|(key & Hk & Hc)]; [left; left; exact H|].
        apply elem_of_cons in Hk as [->|Hk]; [left; right; exact Hc|].
        right; exists key; auto.
    + rewrite IH2, S2. split.
      * intros [[H|H]|(key & Hk & Hc)].
        -- left; exact H.
        -- right; exists k; split; [left|exact H].
        -- right; exists key; split; [right; exact Hk|exact Hc].
      * intros [H|(key & Hk & Hc)]; [left; left; exact H|].
        apply elem_of_cons in Hk as [->|Hk]; [left; right; exact Hc|].
        right; exists key; auto.
Qed.

Lemma visitInputs_leaf (inputs : list string) (x : string) :
  x ∈ (visitInputs ∅ ∅ inputs).1 ↔
    ∃ key, key ∈ inputs ∧ inputOf key = x ∧ ¬ occurs marker x.
Proof.
  unfold visitInputs.
  destruct (visitInputs_fold inputs (∅, ∅) x) as [-> _]. simpl. split.
  - intros [H|(key & Hk & Hc)]; [set_solver|].
    apply classify_leaf_inv in Hc as [-> Hc]. exists key. auto.
  - intros (key & Hk & <- & Hc). right. exists key. split; [exact Hk|].
    now apply classify_leaf.
Qed.

Lemma visitInputs_package (inputs : list string) (x : string) :
  x ∈ (visitInputs ∅ ∅ inputs).2 ↔
    ∃ key, key ∈ inputs ∧ topLevelDirectory (inputOf key) x.
Proof.
  unfold visitInputs.
  destruct (visitInputs_fold inputs (∅, ∅) x) as [_ ->]. simpl. split.
  - intros [H|(key & Hk & Hc)]; [set_solver|].
    exists key. split; [exact Hk|now apply classify_package].
  - intros (key & Hk & Hc). right. exists key. split; [exact Hk|].
    now apply package_classify.
Qed.

Lemma removedFrom_empty (added : gset string) : removedFrom ∅ added = [].
Proof. unfold removedFrom. now rewrite elements_empty. Qed.

(** *** A build in flight *)

(** While [running], calls of [wait], timeouts and watch events change
    neither the tasks, the handle, the log nor the watched paths. *)
Lemma quiet_step (a : Action) (s : State) :
  quiet a = true → running s = true →
  let s' := step a s in
  running s' = true ∧ tasks s' = tasks s ∧ rebuild s' = rebuild s
  ∧ invocations s' = invocations s ∧ timers s' ≤ timers s
  ∧ paths (inputWatcher s') = paths (inputWatcher s)
  ∧ paths (moduleWatcher s') = paths (moduleWatcher s).
Proof.
  intros Hq Hrun. destruct a as [| |i o| |k event file]; try discriminate;
    cbn [step]; cbv zeta.
  - unfold wait. rewrite Hrun. cbn. auto 10.
  - destruct (timers s) as [|n] eqn:Ht; [rewrite Ht; auto 10|].
    unfold armWatchers. cbn. rewrite Hrun. cbn. repeat split; auto; lia.
  - unfold fsEvent, onEvent. destruct k.
    + destruct (sees Inputs (inputWatcher s) file); [|auto 10].
      cbn. rewrite Hrun. cbn. auto 10.
    + destruct (sees Modules (moduleWatcher s) file && String.eqb event "change");
        [|auto 10].
      cbn. rewrite Hrun. cbn. auto 10.
Qed.

Lemma quiet_run (q : list Action) :
  ∀ s, forallb quiet q = true → running s = true →
       let s' := run q s in
       running s' = true ∧ tasks s' = tasks s ∧ rebuild s' = rebuild s
       ∧ invocations s' = invocations s ∧ timers s' ≤ timers s
       ∧ paths (inputWatcher s') = paths (inputWatcher s)
       ∧ paths (moduleWatcher s') = paths (moduleWatcher s).
Proof.
  induction q as [|a q IH]; intros s Hq Hrun; cbv zeta.
  - cbn. auto 10.
  - cbn [forallb] in Hq. apply andb_prop in Hq as [Ha Hq].
    rewrite run_cons.
    destruct (quiet_step a s Ha Hrun) as (R & T & B & I & Tm & P1 & P2).
    destruct (IH _ Hq R) as (R' & T' & B' & I' & Tm' & P1' & P2').
    rewrite T', B', I', P1', P2'. repeat split; auto; lia.
Qed.

Lemma inFlight_quiet (q : list Action) (i : nat) (t : Task) (ci cm : bool)
    (s : State) :
  forallb quiet q = true → inFlight i t ci cm s → inFlight i t ci cm (run q s).
Proof.
  intros Hq (R & T & W1 & W2 & P1 & P2).
  destruct (quiet_run q s Hq R) as (R' & T' & _ & _ & _ & P1' & P2').
  destruct (run_watched q s) as [W1' W2'].
  unfold inFlight. rewrite T', W1', W2', P1', P2'. auto 10.
Qed.

Lemma lookup_insert_new {A} (l : list A) (x y : A) :
  <[ length l := y ]> (l ++ [x]) !! length l = Some y.
Proof. apply list_lookup_insert_eq. rewrite List.length_app. simpl. lia. Qed.

Lemma inFlight_call (s : State) :
  watchedInputs s = ∅ → watchedModules s = ∅ →
  inFlight (length (tasks s)) AwaitCloseInputs true false
    (step CallTriggerBuild s).
Proof.
  intros W1 W2. unfold inFlight. cbn.
  repeat split; auto; [apply lookup_insert_new|discriminate].
Qed.

Lemma lookup_setTask (i : nat) (t : Task) (s : State) :
  i < length (tasks s) → tasks (setTask i t s) !! i = Some t.
Proof. intros H. cbn. now apply list_lookup_insert_eq. Qed.

Lemma inFlight_bound (i : nat) (t : Task) (ci cm : bool) (s : State) :
  inFlight i t ci cm s → i < length (tasks s).
Proof. intros (_ & T & _). eapply lookup_lt_Some, T. Qed.

Lemma inFlight_closeInputs (i : nat) (cm : bool) (s : State) :
  inFlight i AwaitCloseInputs true cm s →
  inFlight i AwaitCloseModules true true (step (Resume i Resolves) s).
Proof.
  intros H. pose proof (inFlight_bound _ _ _ _ _ H) as Hi.
  destruct H as (R & T & W1 & W2 & P1 & P2).
  rewrite (step_resume _ _ _ _ T). unfold inFlight. cbn.
  repeat split; auto. now apply list_lookup_insert_eq.
Qed.

Lemma inFlight_closeModules (i : nat) (s : State) :
  inFlight i AwaitCloseModules true true s →
  inFlight i AwaitRebuild true true (step (Resume i Resolves) s)
  ∧ invocations (step (Resume i Resolves) s) = invocations s ++ [rebuild s].
Proof.
  intros H. pose proof (inFlight_bound _ _ _ _ _ H) as Hi.
  destruct H as (R & T & W1 & W2 & P1 & P2).
  rewrite (step_resume _ _ _ _ T). unfold inFlight. cbn.
  repeat split; auto. now apply list_lookup_insert_eq.
Qed.

Lemma inFlight_rebuilt (i : nat) (result : Result.t) (r : Incremental.t)
    (s : State) :
  validateResult result = inr r →
  inFlight i AwaitRebuild true true s →
  inFlight i (AwaitOnBuildResult r) true true
    (step (Resume i (ResolvesWith result)) s).
Proof.
  intros Hv H. pose proof (inFlight_bound _ _ _ _ _ H) as Hi.
  destruct H as (R & T & W1 & W2 & P1 & P2).
  rewrite (step_resume _ _ _ _ T). unfold inFlight. cbn. rewrite Hv. cbn.
  repeat split; auto. now apply list_lookup_insert_eq.
Qed.

Lemma empty_difference_union (X Y : gset string) : ∅ ∖ Y ∪ X = X.
Proof.
  apply set_eq. intros x. rewrite elem_of_union, elem_of_difference. split.
  - intros [[H _]|H]; [now apply elem_of_empty in H|exact H].
  - auto.
Qed.

(** The last continuation of a successful build arms exactly what the
    loop added. *)
Lemma inFlight_finish (i : nat) (r : Incremental.t) (s : State) :
  inFlight i (AwaitOnBuildResult r) true true s →
  let s' := step (Resume i Resolves) s in
  let added := visitInputs ∅ ∅ (inputs (Incremental.metafile r)) in
  tasks s' !! i = Some (Returned r)
  ∧ running s' = false
  ∧ rebuild s' = Incremental.rebuild r
  ∧ timers s' = S (timers s)
  ∧ invocations s' = invocations s
  ∧ paths (inputWatcher s') = added.1
  ∧ paths (moduleWatcher s') = added.2.
Proof.
  intros H. pose proof (inFlight_bound _ _ _ _ _ H) as Hi.
  destruct H as (R & T & W1 & W2 & P1 & P2).
  cbv zeta. rewrite (step_resume _ _ _ _ T).
  cbn. rewrite W1, W2, !removedFrom_empty, P1, P2 by reflexivity.
  repeat split; auto.
  - now apply list_lookup_insert_eq.
  - apply empty_difference_union.
  - apply empty_difference_union.
Qed.

(** *** The path of an input key *)

Lemma occurs_colon (s : string) :
  occurs ":" s ↔ ∃ a b, s = a +:+ String ":"%char b.
Proof. unfold occurs. split; intros (a & b & ->); exists a, b; reflexivity. Qed.

Lemma split_without (c : ascii) (s : string) :
  (∀ a b, s ≠ a +:+ String c b) → Js.split c s = [s].
Proof.
  induction s as [|x s IH]; intros H; [reflexivity|].
  cbn [Js.split]. destruct (Ascii.eqb x c) eqn:Hx.
  - apply Ascii.eqb_eq in Hx as ->. exfalso.
    apply (H EmptyString s). reflexivity.
  - rewrite IH; [reflexivity|].
    intros a b ->. apply (H (String x a) b). reflexivity.
Qed.

Lemma split_at (c : ascii) (a b : string) :
  (∀ u v, a ≠ u +:+ String c v) →
  Js.split c (a +:+ String c b) = a :: Js.split c b.
Proof.
  induction a as [|x a IH]; intros H.
  - rewrite app_empty. cbn [Js.split]. now rewrite Ascii.eqb_refl.
  - rewrite app_String. cbn [Js.split]. destruct (Ascii.eqb x c) eqn:Hx.
    + apply Ascii.eqb_eq in Hx as ->. exfalso.
      apply (H EmptyString a). reflexivity.
    + rewrite IH; [reflexivity|].
      intros u v ->. apply (H (String x u) v). reflexivity.
Qed.

(** [inputOf] drops a resolution-scheme tag: a key without a colon is
    the input itself; of [scheme:path] the input is [path]. *)
Lemma inputOf_plain (key : string) : ¬ occurs ":" key → inputOf key = key.
Proof.
  intros H. apply not_includes_occurs in H. unfold inputOf. now rewrite H.
Qed.

Lemma inputOf_scheme (scheme path : string) :
  ¬ occurs ":" scheme → ¬ occurs ":" path →
  inputOf (scheme +:+ ":" +:+ path) = path.
Proof.
  intros Hs Hp. unfold inputOf.
  assert (Js.includes (scheme +:+ ":" +:+ path) ":" = true) as ->.
  { apply includes_occurs. exists scheme, path. reflexivity. }
  change (scheme +:+ ":" +:+ path) with (scheme +:+ String ":"%char path).
  rewrite split_at, split_without; [reflexivity| |].
  - intros a b ->. apply Hp, occurs_colon. eauto.
  - intros a b ->. apply Hs, occurs_colon. eauto.
Qed.

Lemma inputOf_more (scheme path tail : string) :
  ¬ occurs ":" scheme → ¬ occurs ":" path →
  inputOf (scheme +:+ ":" +:+ path +:+ ":" +:+ tail) = path.
Proof.
  intros Hs Hp. unfold inputOf.
  assert (Js.includes (scheme +:+ ":" +:+ path +:+ ":" +:+ tail) ":" = true)
    as ->.
  { apply includes_occurs. exists scheme, (path +:+ ":" +:+ tail).
    reflexivity. }
  change (scheme +:+ ":" +:+ path +:+ ":" +:+ tail)
    with (scheme +:+ String ":"%char (path +:+ String ":"%char tail)).
  rewrite split_at, split_at; [reflexivity| |].
  - intros u v ->. apply Hp, occurs_colon. eauto.
  - intros u v ->. apply Hs, occurs_colon. eauto.
Qed.

(** A string that holds a colon splits at its first one. *)
Lemma first_colon (s : string) :
  occurs ":" s → ∃ a b, s = a +:+ ":" +:+ b ∧ ¬ occurs ":" a.
Proof.
  induction s as [|x s IH]; intros (u & v & Hs).
  - destruct u; discriminate Hs.
  - destruct (Ascii.eqb x ":"%char) eqn:Hx.
    + apply Ascii.eqb_eq in Hx as ->. exists EmptyString, s.
      split; [reflexivity|]. intros (u' & v' & H). destruct u'; discriminate H.
    + apply Ascii.eqb_neq in Hx.
      destruct u as [|y u].
      { rewrite app_empty in Hs. injection Hs as -> _. contradiction. }
      rewrite app_String in Hs. injection Hs as <- Hs.
      destruct IH as (a & b & -> & Ha); [exists u, v; exact Hs|].
      exists (String x a), b. split; [reflexivity|].
      intros (u' & v' & H). destruct u' as [|z u'].
      * rewrite app_empty in H. injection H as -> _. contradiction.
      * rewrite app_String in H. injection H as _ H.
        apply Ha. exists u', v'. exact H.
Qed.

(** [inputOf] computes the path of a key. *)
Lemma inputOf_keyPath (key p : string) : inputOf key = p ↔ keyPath key p.
Proof.
  split.
  - intros <-. destruct (Js.includes key ":") eqn:Hk.
    + apply includes_occurs, first_colon in Hk as (a & b & -> & Ha).
      right. exists a, b. split; [reflexivity|]. split; [exact Ha|].
      destruct (Js.includes b ":") eqn:Hb.
      * apply includes_occurs, first_colon in Hb as (c & t & -> & Hc).
        right. exists t. split; [|rewrite inputOf_more; assumption].
        rewrite inputOf_more by assumption. reflexivity.
      * apply not_includes_occurs in Hb. left.
        split; [exact Hb|]. now apply inputOf_scheme.
    + apply not_includes_occurs in Hk. left.
      split; [exact Hk|]. now apply inputOf_plain.
  - intros [[Hk ->]|(a & b & -> & Ha & [[Hb ->]|(t & -> & Hp)])].
    + now apply inputOf_plain.
    + now apply inputOf_scheme.
    + now apply inputOf_more.
Qed.

(** *** Watch-set convergence *)

(** What the loop adds, in terms of the keys' paths. *)
Lemma visitInputs_keyPath_leaf (inputs : list string) (p : string) :
  p ∈ (visitInputs ∅ ∅ inputs).1 ↔
    ∃ key, key ∈ inputs ∧ keyPath key p ∧ ¬ occurs marker p.
Proof.
  rewrite visitInputs_leaf. split.
  - intros (key & Hk & Hp & Hm). exists key.
    split; [exact Hk|]. split; [now apply inputOf_keyPath|exact Hm].
  - intros (key & Hk & Hp & Hm). exists key.
    split; [exact Hk|]. split; [now apply inputOf_keyPath|exact Hm].
Qed.

Lemma visitInputs_keyPath_package (inputs : list string) (p : string) :
  p ∈ (visitInputs ∅ ∅ inputs).2 ↔
    ∃ key input, key ∈ inputs ∧ keyPath key input
                 ∧ topLevelDirectory input p.
Proof.
  rewrite visitInputs_package. split.
  - intros (key & Hk & Hd). exists key, (inputOf key).
    split; [exact Hk|]. split; [now apply inputOf_keyPath|exact Hd].
  - intros (key & input & Hk & Hp & Hd). exists key.
    split; [exact Hk|]. apply inputOf_keyPath in Hp. now rewrite Hp.
Qed.




(** *** Classification and registration of one input *)

(** What the last continuation of [triggerBuild] leaves in the
    watchers. *)
Lemma finish_watchers (i : nat) (r : Incremental.t) (s : State) :
  watchedInputs s = ∅ → watchedModules s = ∅ →
  let added := visitInputs ∅ ∅ (inputs (Incremental.metafile r)) in
  let s' := triggerBuild_finish i r s in
  inputWatcher s' = add added.1 (unwatch [] (inputWatcher s))
  ∧ moduleWatcher s' = add added.2 (unwatch [] (moduleWatcher s)).
Proof.
  intros W1 W2. cbv zeta. unfold triggerBuild_finish. cbn.
  rewrite W1, W2, !removedFrom_empty. split; reflexivity.
Qed.

Lemma finish_paths (i : nat) (r : Incremental.t) (s : State) (p : string) :
  watchedInputs s = ∅ → watchedModules s = ∅ →
  let added := visitInputs ∅ ∅ (inputs (Incremental.metafile r)) in
  let s' := triggerBuild_finish i r s in
  (p ∈ paths (inputWatcher s') ↔ p ∈ paths (inputWatcher s) ∨ p ∈ added.1)
  ∧ (p ∈ paths (moduleWatcher s') ↔ p ∈ paths (moduleWatcher s) ∨ p ∈ added.2).
Proof.
  intros W1 W2. cbv zeta.
  destruct (finish_watchers i r s W1 W2) as [-> ->]. cbn.
  rewrite !elem_of_union, !elem_of_difference.
  split; (split; [intros [[H _]|H]; auto|intros [H|H]; auto]);
    left; (split; [exact H|apply not_elem_of_empty]).
Qed.

(** An input the loop skips leaves the sets it builds as they are. *)
Lemma visitInputs_skip (wi wm : gset string) (pre post : list string)
    (key : string) :
  classify (inputOf key) = Unwatched →
  visitInputs wi wm (pre ++ key :: post) = visitInputs wi wm (pre ++ post).
Proof.
  intros Hc. unfold visitInputs. rewrite !fold_left_app. cbn [fold_left].
  unfold visitInput at 2. rewrite Hc. reflexivity.
Qed.

(** C7 (as the code has it).  Every key of the metafile's inputs has a
    path: the key itself when it holds no colon, otherwise what stands
    between its first colon and its second (or its end).  A path that
    does not contain [node_modules] is a leaf target and is added to the
    input watcher as it is; one that has a top-level dependency
    directory (a [/] follows the path segment after the first
    [node_modules]) is a package target, and that directory is added to
    the module watcher; one that contains [node_modules] and has no such
    directory is skipped: the build leaves both watchers as it would
    leave them if the metafile did not list that key.  Nothing else is
    added: after the build a watcher holds what it held before, the
    leaf targets (input watcher) or the package targets (module
    watcher) of the keys, and no other path. *)
Theorem input_classification (s : State) (i : nat) (r : Incremental.t)
    (key input : string) :
  reachable s →
  key ∈ inputs (Incremental.metafile r) →
  keyPath key input →
  let s' := triggerBuild_finish i r s in
  (¬ occurs marker input →
     classify input = Leaf input ∧ input ∈ paths (inputWatcher s'))
  ∧ (∀ dir, topLevelDirectory input dir →
            classify input = Package dir ∧ dir ∈ paths (moduleWatcher s'))
  ∧ (occurs marker input → (∀ dir, ¬ topLevelDirectory input dir) →
     ∀ pre post r',
       inputs (Incremental.metafile r) = pre ++ key :: post →
       inputs (Incremental.metafile r') = pre ++ post →
       inputWatcher (triggerBuild_finish i r' s) = inputWatcher s'
       ∧ moduleWatcher (triggerBuild_finish i r' s) = moduleWatcher s')
  ∧ (∀ p, p ∈ paths (inputWatcher s') ↔
           p ∈ paths (inputWatcher s)
           ∨ ∃ k, k ∈ inputs (Incremental.metafile r)
                  ∧ keyPath k p ∧ ¬ occurs marker p)
  ∧ (∀ p, p ∈ paths (moduleWatcher s') ↔
           p ∈ paths (moduleWatcher s)
           ∨ ∃ k x, k ∈ inputs (Incremental.metafile r)
                    ∧ keyPath k x ∧ topLevelDirectory x p).
Proof.
  intros Hreach Hkey Hpath s'.
  destruct (reachable_watched s Hreach) as [W1 W2].
  assert (E1 : ∀ p, p ∈ paths (inputWatcher s') ↔
                    p ∈ paths (inputWatcher s)
                    ∨ ∃ k, k ∈ inputs (Incremental.metafile r)
                           ∧ keyPath k p ∧ ¬ occurs marker p).
  { intros p. unfold s'. destruct (finish_paths i r s p W1 W2) as [H _].
    cbv zeta in H. rewrite H. now rewrite visitInputs_keyPath_leaf. }
  assert (E2 : ∀ p, p ∈ paths (moduleWatcher s') ↔
                    p ∈ paths (moduleWatcher s)
                    ∨ ∃ k x, k ∈ inputs (Incremental.metafile r)
                             ∧ keyPath k x ∧ topLevelDirectory x p).
  { intros p. unfold s'. destruct (finish_paths i r s p W1 W2) as [_ H].
    cbv zeta in H. rewrite H. now rewrite visitInputs_keyPath_package. }
  split; [|split; [|split; [|split; [exact E1|exact E2]]]].
  - intros Hno. split; [now apply classify_leaf|].
    apply E1. right. exists key. auto.
  - intros dir Hdir. split; [now apply package_classify|].
    apply E2. right. exists key, input. auto.
  - intros Hocc Hnone pre post r' Hr Hr'.
    assert (Hc : classify (inputOf key) = Unwatched).
    { apply inputOf_keyPath in Hpath. rewrite Hpath.
      destruct (classify input) as [x|dir|] eqn:Hc; [| |reflexivity].
      - apply classify_leaf_inv in Hc as [_ Hc]. contradiction.
      - apply classify_package in Hc. destruct (Hnone _ Hc). }
    destruct (finish_watchers i r s W1 W2) as [F1 F2].
    destruct (finish_watchers i r' s W1 W2) as [F1' F2'].
    cbv zeta in F1, F2, F1', F2'. unfold s'.
    rewrite F1, F2, F1', F2', Hr, Hr', (visitInputs_skip _ _ _ _ _ Hc).
    split; reflexivity.
Qed.

Lemma input_classification_witness :
  let s := Examples.armed1 in
  let r := Examples.gen2 in
  let key := "../node_modules/pkg/lib/index.js" in
  let s' := triggerBuild_finish 0 r s in
  topLevelDirectory key "../node_modules/pkg"
  ∧ "../node_modules/pkg" ∈ paths (moduleWatcher s')
  ∧ (∀ p, p ∈ paths (inputWatcher s') ↔
           p ∈ paths (inputWatcher s)
           ∨ ∃ k, k ∈ inputs (Incremental.metafile r)
                  ∧ keyPath k p ∧ ¬ occurs marker p).
Proof.
  cbv zeta.
  assert (Hno : ¬ occurs ":" "../node_modules/pkg/lib/index.js").
  { intros H. apply not_includes_occurs in H; [exact H|reflexivity]. }
  assert (Hdir : topLevelDirectory "../node_modules/pkg/lib/index.js"
                   "../node_modules/pkg").
  { apply classify_package. reflexivity. }
  destruct (input_classification Examples.armed1 0 Examples.gen2
              "../node_modules/pkg/lib/index.js"
              "../node_modules/pkg/lib/index.js")
    as (_ & H2 & _ & H4 & _).
  - eexists; reflexivity.
  - unfold Examples.gen2. cbn. do 2 right. left.
  - left. split; [exact Hno|reflexivity].
  - split; [exact Hdir|]. split; [apply (H2 _ Hdir)|exact H4].
Defined.

(** C7, counterexample.  The input [node_modules/foo.js] contains the
    marker, yet a build whose metafile lists it leaves both watchers
    without any path: no package target is registered for it.  And of
    the key [sass:C:/src/a.scss] the leaf target registered is [C], not
    the key without its scheme tag. *)
Lemma dependency_file_is_no_package_target :
  let key := "node_modules/foo.js" in
  let r := Examples.generation 1 [key] in
  let s' := run (CallTriggerBuild :: Examples.build 0 r) init in
  let r2 := Examples.generation 1 ["sass:C:/src/a.scss"] in
  let s2 := run (CallTriggerBuild :: Examples.build 0 r2) init in
  (key ∈ inputs (Incremental.metafile r)
   ∧ occurs marker (inputOf key)
   ∧ tasks s' !! 0 = Some (Returned r)
   ∧ paths (moduleWatcher s') = ∅
   ∧ paths (inputWatcher s') = ∅)
  ∧ (tasks s2 !! 0 = Some (Returned r2)
     ∧ "C" ∈ paths (inputWatcher s2)
     ∧ "C:/src/a.scss" ∉ paths (inputWatcher s2)).
Proof.
  cbv zeta. split.
  - repeat split.
    + left.
    + exists EmptyString, "/foo.js". reflexivity.
  - split; [vm_compute; reflexivity|].
    split; apply (bool_decide_unpack _); vm_compute; exact I.
Qed.

End WatchFacts.

(* ===================================================================== *)
(** * The controller: builds in flight *)
(* ===================================================================== *)

Module BuildFacts.

Import IncrementalBuild Spec WatchFacts.

(** *** Calls of [triggerBuild] while a build is in flight *)

Lemma insert_new {A} (l : list A) (x : A) :
  <[ length l := x ]> (l ++ [x]) = l ++ [x].
Proof.
  apply list_insert_id. rewrite lookup_app_r by lia.
  now rewrite Nat.sub_diag.
Qed.

Lemma run_calls (n : nat) :
  ∀ s, let s' := run (replicate n CallTriggerBuild) s in
       tasks s' = tasks s ++ replicate n AwaitCloseInputs
       ∧ invocations s' = invocations s ∧ rebuild s' = rebuild s.
Proof.
  induction n as [|n IH]; intros s; cbv zeta.
  - cbn. now rewrite app_nil_r.
  - cbn [replicate]. rewrite run_cons.
    destruct (IH (step CallTriggerBuild s)) as (T & I & B).
    rewrite T, I, B. cbn. rewrite insert_new, <- app_assoc. auto.
Qed.

Lemma lookup_middle {A} (pre post : list A) (j : nat) (x y : A) :
  (pre ++ replicate j x ++ y :: post) !! (length pre + j) = Some y.
Proof.
  rewrite lookup_app_r by lia.
  replace (length pre + j - length pre) with j by lia.
  rewrite lookup_app_r by (rewrite length_replicate; lia).
  now rewrite length_replicate, Nat.sub_diag.
Qed.

Lemma insert_middle {A} (pre post : list A) (j : nat) (x y z : A) :
  <[ length pre + j := z ]> (pre ++ replicate j x ++ y :: post)
  = pre ++ replicate j x ++ z :: post.
Proof.
  rewrite insert_app_r. f_equal.
  rewrite <- (length_replicate j x) at 1.
  rewrite <- (Nat.add_0_r (length (replicate j x))), insert_app_r.
  reflexivity.
Qed.

Lemma replicate_shift {A} (j : nat) (x : A) (l : list A) :
  replicate j x ++ x :: l = x :: replicate j x ++ l.
Proof. induction j as [|j IH]; [reflexivity|]. cbn. now rewrite IH. Qed.

Lemma run_resumes (pre : list Task) (m : nat) :
  ∀ (j : nat) (s : State),
    tasks s = pre ++ replicate j AwaitRebuild ++ replicate m AwaitCloseInputs →
    let s' := run (flat_map (λ k, [Resume (length pre + k) Resolves;
                                   Resume (length pre + k) Resolves])
                     (seq j m)) s in
    tasks s' = pre ++ replicate (j + m) AwaitRebuild
    ∧ invocations s' = invocations s ++ replicate m (rebuild s)
    ∧ rebuild s' = rebuild s.
Proof.
  induction m as [|m IH]; intros j s T; cbv zeta.
  - cbn. rewrite T, Nat.add_0_r, !app_nil_r. auto.
  - cbn [seq flat_map]. rewrite run_app.
    cbn [replicate] in T.
    set (i := length pre + j).
    assert (T1 : tasks s !! i = Some AwaitCloseInputs).
    { rewrite T. apply lookup_middle. }
    set (s1 := step (Resume i Resolves) s).
    assert (E1 : s1 = resume i AwaitCloseInputs Resolves s).
    { unfold s1. now apply step_resume. }
    assert (T2 : tasks s1 !! i = Some AwaitCloseModules).
    { rewrite E1. cbn. apply list_lookup_insert_eq.
      eapply lookup_lt_Some, T1. }
    set (s2 := step (Resume i Resolves) s1).
    assert (E2 : s2 = resume i AwaitCloseModules Resolves s1).
    { unfold s2. now apply step_resume. }
    assert (T3 : tasks s2 = pre ++ replicate (S j) AwaitRebuild
                              ++ replicate m AwaitCloseInputs).
    { rewrite E2, E1. cbn. rewrite list_insert_insert_eq, T.
      unfold i. rewrite insert_middle, replicate_shift. reflexivity. }
    change (run [Resume i Resolves; Resume i Resolves] s) with s2.
    destruct (IH (S j) s2 T3) as (T' & I' & B').
    assert (B2 : rebuild s2 = rebuild s) by (rewrite E2, E1; reflexivity).
    assert (I2 : invocations s2 = invocations s ++ [rebuild s])
      by (rewrite E2, E1; reflexivity).
    rewrite T', I', B', B2, I2, <- app_assoc.
    replace (S j + m) with (j + S m) by lia. auto.
Qed.

Lemma run_concurrentCalls (s : State) (n : nat) :
  let s' := run (concurrentCalls (length (tasks s)) n) s in
  tasks s' = tasks s ++ replicate n AwaitRebuild
  ∧ invocations s' = invocations s ++ replicate n (rebuild s)
  ∧ rebuild s' = rebuild s.
Proof.
  cbv zeta. unfold concurrentCalls. rewrite run_app.
  destruct (run_calls n s) as (T & I & B). cbv zeta in T, I, B.
  destruct (run_resumes (tasks s) n 0 _ T) as (T' & I' & B').
  cbv zeta in T', I', B'. rewrite T', I', B', I, B. auto.
Qed.

(** A watch event while [running] schedules nothing. *)
Lemma event_while_running (k : WatcherKind) (event file : string) (s : State) :
  running s = true →
  let s' := step (FsEvent k event file) s in
  running s' = true ∧ tasks s' = tasks s ∧ rebuild s' = rebuild s
  ∧ invocations s' = invocations s ∧ timers s' = timers s
  ∧ sameButListeners s' s.
Proof.
  intros Hrun. cbn [step]. cbv zeta. unfold fsEvent, onEvent, sameButListeners.
  destruct k.
  - destruct (sees Inputs (inputWatcher s) file); [|auto 20].
    cbn. rewrite Hrun. cbn. auto 20.
  - destruct (sees Modules (moduleWatcher s) file && String.eqb event "change");
      [|auto 20].
    cbn. rewrite Hrun. cbn. auto 20.
Qed.

(** C1 (as the code has it).  [triggerBuild] has no single-flight guard.
    Once the first build has returned (task 0: from then on the caller
    of [incrementalBuild] holds [triggerBuild]), [n] calls made while a
    build is in flight invoke the bundler [n] more times, each through
    the current [rebuild] handle; the build that was in flight goes on
    as it was, and each caller resolves with the result of its own
    invocation.  Only the watch events are guarded, by the [running]
    flag: while it is set, a watch event starts no invocation and no
    task. *)
Theorem concurrent_calls_invoke_bundler (s : State) (r0 : Incremental.t)
    (i0 : nat) (t0 : Task) (n : nat) :
  tasks s !! 0 = Some (Returned r0) →
  tasks s !! i0 = Some t0 → building t0 = true →
  let base := length (tasks s) in
  let s' := run (concurrentCalls base n) s in
  invocations s' = invocations s ++ replicate n (rebuild s)
  ∧ tasks s' = tasks s ++ replicate n AwaitRebuild
  ∧ tasks s' !! i0 = Some t0
  ∧ (∀ j result r,
        j < n → validateResult result = inr r →
        tasks (run [Resume (base + j) (ResolvesWith result);
                    Resume (base + j) Resolves] s') !! (base + j)
        = Some (Returned r))
  ∧ (running s = true →
     ∀ k event file,
       invocations (step (FsEvent k event file) s) = invocations s
       ∧ tasks (step (FsEvent k event file) s) = tasks s).
Proof.
  intros _ Ht0 _ base s'.
  destruct (run_concurrentCalls s n) as (T & I & B). fold base s' in T, I, B.
  split; [exact I|]. split; [exact T|]. split; [|split].
  - rewrite T. apply lookup_app_l_Some, Ht0.
  - intros j result r Hj Hv.
    assert (T1 : tasks s' !! (base + j) = Some AwaitRebuild).
    { rewrite T, lookup_app_r by (unfold base; lia).
      apply lookup_replicate_2. unfold base. lia. }
    rewrite !run_cons. cbn [run fold_left].
    rewrite (step_resume _ _ _ _ T1). cbn [resume]. rewrite Hv.
    assert (Hlt : base + j < length (tasks s')) by (eapply lookup_lt_Some, T1).
    rewrite (step_resume _ (AwaitOnBuildResult r)).
    + cbn. apply list_lookup_insert_eq. now rewrite length_insert.
    + cbn. now apply list_lookup_insert_eq.
  - intros Hrun k event file.
    destruct (event_while_running k event file s Hrun)
      as (_ & T' & _ & I' & _). auto.
Qed.

(** A rebuild started by an edit is waiting for the bundler when the
    caller of [incrementalBuild] calls the [rebuild] of its result three
    times. *)
Lemma concurrent_calls_invoke_bundler_witness :
  let s := Examples.rebuilding in
  let n := 3 in
  tasks s !! 0 = Some (Returned Examples.gen1)
  ∧ tasks s !! 1 = Some AwaitRebuild
  ∧ invocations (run (concurrentCalls (length (tasks s)) n) s)
    = invocations s ++ replicate n (rebuild s)
  ∧ tasks (run (concurrentCalls (length (tasks s)) n) s) !! 1
    = Some AwaitRebuild.
Proof.
  cbv zeta.
  assert (H0 : tasks Examples.rebuilding !! 0 = Some (Returned Examples.gen1))
    by (vm_compute; reflexivity).
  assert (H : tasks Examples.rebuilding !! 1 = Some AwaitRebuild)
    by (vm_compute; reflexivity).
  split; [exact H0|]. split; [exact H|].
  destruct (concurrent_calls_invoke_bundler Examples.rebuilding Examples.gen1
              1 AwaitRebuild 3 H0 H eq_refl) as (H1 & _ & H3 & _).
  split; [exact H1|exact H3].
Defined.

(** C1, counterexample.  The first build has returned generation [gen1]
    and [incrementalBuild] has handed [triggerBuild] to its caller.  An
    edit of [src/old.ts] starts a rebuild, and while that build waits
    for the bundler the caller calls [triggerBuild]: the bundler is
    invoked once more, through the same handle, and the two builds in
    flight resolve with two different generations. *)
Lemma second_call_invokes_bundler_again :
  let s := Examples.rebuilding in
  let s1 := run (concurrentCalls (length (tasks s)) 1) s in
  let s2 := run [Resume 1 (ResolvesWith (Incremental.toResult Examples.gen2));
                 Resume 1 Resolves;
                 Resume 2 (ResolvesWith (Incremental.toResult Examples.genB));
                 Resume 2 Resolves] s1 in
  running s = true
  ∧ tasks s = [Returned Examples.gen1; AwaitRebuild]
  ∧ invocations s = [InitialBuild; ResultRebuild 1]
  ∧ invocations s1 = [InitialBuild; ResultRebuild 1; ResultRebuild 1]
  ∧ tasks s1 = [Returned Examples.gen1; AwaitRebuild; AwaitRebuild]
  ∧ tasks s2 = [Returned Examples.gen1; Returned Examples.gen2;
                Returned Examples.genB].
Proof.
  cbv zeta.
  split; [vm_compute; reflexivity|]. split; [vm_compute; reflexivity|].
  split; [vm_compute; reflexivity|]. split; [vm_compute; reflexivity|].
  split; vm_compute; reflexivity.
Qed.

(** *** Watch events while a build is in flight *)

Lemma sameButListeners_refl (s : State) : sameButListeners s s.
Proof. unfold sameButListeners. auto 20. Qed.

(** Continuations and timeouts do not look at the number of listeners. *)
Lemma sameButListeners_step (a : Action) (s1 s2 : State) :
  internal a = true → sameButListeners s1 s2 →
  sameButListeners (step a s1) (step a s2).
Proof.
  intros Ha H.
  destruct s1 as [b1 r1 e1 wi1 wm1 [p1 l1] [q1 m1] t1 ts1 inv1 rel1].
  destruct s2 as [b2 r2 e2 wi2 wm2 [p2 l2] [q2 m2] t2 ts2 inv2 rel2].
  unfold sameButListeners in H. cbn in H.
  destruct H as (-> & -> & -> & -> & -> & -> & -> & -> & -> & -> & ->).
  destruct a as [| |i o| |k event file]; try discriminate;
    unfold sameButListeners.
  - cbn [step tasks]. destruct (ts2 !! i) as [t|]; [|cbn; auto 20].
    destruct t, o; cbn; auto 20.
    destruct (validateResult result); cbn; auto 20.
  - cbn [step timers]. destruct t2 as [|t2]; [cbn; auto 20|].
    unfold armWatchers. cbn. destruct r2; cbn; auto 20.
Qed.

Lemma sameButListeners_run (tr : list Action) :
  ∀ s1 s2, forallb internal tr = true → sameButListeners s1 s2 →
           sameButListeners (run tr s1) (run tr s2).
Proof.
  induction tr as [|a tr IH]; intros s1 s2 Htr H; [exact H|].
  cbn [forallb] in Htr. apply andb_prop in Htr as [Ha Htr].
  rewrite !run_cons. apply IH; [exact Htr|].
  now apply sameButListeners_step.
Qed.

(** C6 (as the code has it).  A filesystem change event that arrives
    while a build is in flight is dropped: it schedules no task and no
    timeout and invokes nothing, and whatever the controller does
    afterwards it invokes the bundler exactly as if the event had
    never arrived. *)
Theorem event_while_building_is_dropped (s : State) (k : WatcherKind)
    (event file : string) :
  running s = true →
  let s' := step (FsEvent k event file) s in
  running s' = true
  ∧ tasks s' = tasks s
  ∧ timers s' = timers s
  ∧ invocations s' = invocations s
  ∧ (∀ trace, forallb internal trace = true →
              invocations (run trace s') = invocations (run trace s)
              ∧ tasks (run trace s') = tasks (run trace s)
              ∧ timers (run trace s') = timers (run trace s)).
Proof.
  intros Hrun s'.
  destruct (event_while_running k event file s Hrun)
    as (R & T & _ & I & Tm & Hsame). fold s' in R, T, I, Tm, Hsame.
  repeat split; try assumption;
    destruct (sameButListeners_run trace _ _ H Hsame)
      as (_ & _ & _ & _ & _ & _ & _ & Tm' & T' & I' & _); assumption.
Qed.

Lemma event_while_building_is_dropped_witness :
  let s := Examples.rebuilding in
  let s' := step (FsEvent Inputs "change" "src/old.ts") s in
  running s = true
  ∧ running s' = true
  ∧ tasks s' = tasks s
  ∧ timers s' = timers s
  ∧ invocations s' = invocations s
  ∧ (∀ trace, forallb internal trace = true →
              invocations (run trace s') = invocations (run trace s)
              ∧ tasks (run trace s') = tasks (run trace s)
              ∧ timers (run trace s') = timers (run trace s)).
Proof.
  split; [reflexivity|].
  apply (event_while_building_is_dropped Examples.rebuilding Inputs
           "change" "src/old.ts").
  reflexivity.
Defined.

(** C6, counterexample.  A rebuild is waiting for the bundler when
    [src/old.ts], an input of the previous and of the new generation, is
    edited.  The build settles and the arming timeout expires: the
    controller is quiescent, the file is watched again, and the bundler
    has been invoked as often as before the edit. No rebuild follows. *)
Lemma edit_during_build_is_lost :
  let s := Examples.rebuilding in
  let s' := step (FsEvent Inputs "change" "src/old.ts") s in
  let final := run [Resume 1 (ResolvesWith (Incremental.toResult Examples.gen1));
                    Resume 1 Resolves; TimerFires] s' in
  running s = true
  ∧ quiescent final
  ∧ "src/old.ts" ∈ paths (inputWatcher final)
  ∧ listeners (inputWatcher final) = 1
  ∧ invocations s = [InitialBuild; ResultRebuild 1]
  ∧ invocations final = invocations s.
Proof.
  cbv zeta. split; [vm_compute; reflexivity|].
  split; [vm_compute; repeat split|].
  split; [apply (bool_decide_unpack _); vm_compute; exact I|].
  split; [vm_compute; reflexivity|].
  split; vm_compute; reflexivity.
Qed.

(** *** A build that fails *)

(** What the [catch] block does, whatever made the build fail. *)
Lemma catch_spec (i : nat) (s : State) :
  i < length (tasks s) →
  let s' := triggerBuild_catch i s in
  tasks s' !! i = Some (Returned (NULL_RESULT (rebuild s)))
  ∧ rebuild s' = rebuild s
  ∧ running s' = false
  ∧ timers s' = S (timers s)
  ∧ released s' = released s + evt s
  ∧ inputWatcher s' = inputWatcher s
  ∧ moduleWatcher s' = moduleWatcher s.
Proof.
  intros Hi. cbn. repeat split. now apply list_lookup_insert_eq.
Qed.

(** The arming timeout registers the listeners and adds no path. *)
Lemma armWatchers_paths (s : State) :
  paths (inputWatcher (armWatchers s)) = paths (inputWatcher s)
  ∧ paths (moduleWatcher (armWatchers s)) = paths (moduleWatcher s).
Proof. unfold armWatchers. destruct (running s); split; reflexivity. Qed.

(** A watcher without paths sees no file. *)
Lemma sees_nothing (k : WatcherKind) (w : Watcher) (file : string) :
  paths w = ∅ → sees k w file = false.
Proof.
  intros H. destruct k; cbn [sees]; rewrite H; apply bool_decide_eq_false.
  - apply not_elem_of_empty.
  - intros (dir & Hdir & _). now apply elem_of_empty in Hdir.
Qed.

Lemma fsEvent_nothing_watched (k : WatcherKind) (event file : string)
    (s : State) :
  paths (inputWatcher s) = ∅ → paths (moduleWatcher s) = ∅ →
  step (FsEvent k event file) s = s.
Proof.
  intros P1 P2. cbn [step]. unfold fsEvent.
  destruct k; rewrite sees_nothing by assumption; reflexivity.
Qed.

(** The handle is not touched before the build settles. *)
Lemma rebuild_quiet (q : list Action) (i : nat) (t : Task) (ci cm : bool)
    (s : State) :
  forallb quiet q = true → inFlight i t ci cm s →
  rebuild (run q s) = rebuild s.
Proof. intros Hq H. apply (quiet_run q s Hq). apply H. Qed.

Lemma rebuild_close (i : nat) (t : Task) (ci cm : bool) (s : State) :
  t = AwaitCloseInputs ∨ t = AwaitCloseModules →
  inFlight i t ci cm s →
  rebuild (step (Resume i Resolves) s) = rebuild s.
Proof.
  intros Ht (_ & T & _). rewrite (step_resume _ _ _ _ T).
  destruct Ht as [-> | ->]; reflexivity.
Qed.

(** A build run from the call whose bundler invocation rejects: the
    null result is returned, the handle is kept, and both watchers are
    left without any path. *)
Lemma failed_build_unwatches (s : State) (q1 q2 q3 : list Action) :
  reachable s →
  forallb quiet (q1 ++ q2 ++ q3) = true →
  let i := length (tasks s) in
  let s' := run (CallTriggerBuild :: q1 ++ Resume i Resolves :: q2
                   ++ Resume i Resolves :: q3 ++ [Resume i Rejects]) s in
  tasks s' !! i = Some (Returned (NULL_RESULT (rebuild s)))
  ∧ rebuild s' = rebuild s
  ∧ paths (inputWatcher s') = ∅
  ∧ paths (moduleWatcher s') = ∅.
Proof.
  intros Hreach Hq. cbv zeta.
  rewrite !forallb_app in Hq.
  apply andb_prop in Hq as [Hq1 Hq]. apply andb_prop in Hq as [Hq2 Hq3].
  destruct (reachable_watched s Hreach) as [W1 W2].
  rewrite run_cons, run_app, run_cons, run_app, run_cons, run_app.
  cbn [run fold_left].
  pose proof (inFlight_call s W1 W2) as H.
  assert (B : rebuild (step CallTriggerBuild s) = rebuild s) by reflexivity.
  revert H B.
  generalize (step CallTriggerBuild s), (length (tasks s)), (rebuild s).
  clear Hreach W1 W2 s. intros s i h H B.
  rewrite <- (rebuild_quiet q1 _ _ _ _ _ Hq1 H) in B.
  apply (inFlight_quiet q1) in H; [|exact Hq1].
  revert H B. generalize (run q1 s). clear s. intros s H B.
  rewrite <- (rebuild_close _ _ _ _ _ (or_introl eq_refl) H) in B.
  apply inFlight_closeInputs in H.
  revert H B. generalize (step (Resume i Resolves) s). clear s. intros s H B.
  rewrite <- (rebuild_quiet q2 _ _ _ _ _ Hq2 H) in B.
  apply (inFlight_quiet q2) in H; [|exact Hq2].
  revert H B. generalize (run q2 s). clear s. intros s H B.
  rewrite <- (rebuild_close _ _ _ _ _ (or_intror eq_refl) H) in B.
  apply inFlight_closeModules in H as [H _].
  revert H B. generalize (step (Resume i Resolves) s). clear s. intros s H B.
  rewrite <- (rebuild_quiet q3 _ _ _ _ _ Hq3 H) in B.
  apply (inFlight_quiet q3) in H; [|exact Hq3].
  revert H B. generalize (run q3 s). clear s. intros s H B.
  pose proof (inFlight_bound _ _ _ _ _ H) as Hi.
  destruct H as (_ & T & _ & _ & P1 & P2).
  rewrite (step_resume _ _ _ _ T). cbn [resume].
  destruct (catch_spec i s Hi) as (T' & B' & _ & _ & _ & I' & M').
  cbv zeta in T', B', I', M'.
  rewrite T', B', I', M', P1, P2, B by reflexivity. auto.
Qed.

(** C4, at the failing input.  A rebuild is started by an edit of the
    watched file [src/old.ts]; the bundler invocation rejects.
    [triggerBuild] returns the null result, keeps the handle of the
    previous generation and sets the arming timeout, which registers
    the listeners again.  But the watchers were closed when the build
    began and the [catch] block adds no path: both watchers hold no
    path, and no later change of any file reaches the controller. *)
Theorem failed_rebuild_leaves_nothing_watched :
  let s := run [Resume 1 Rejects; TimerFires] Examples.rebuilding in
  "src/old.ts" ∈ paths (inputWatcher Examples.armed1)
  ∧ tasks s !! 1 = Some (Returned (NULL_RESULT (ResultRebuild 1)))
  ∧ rebuild s = ResultRebuild 1
  ∧ running s = false
  ∧ listeners (inputWatcher s) = 1 ∧ listeners (moduleWatcher s) = 1
  ∧ paths (inputWatcher s) = ∅ ∧ paths (moduleWatcher s) = ∅
  ∧ quiescent s
  ∧ ∀ events : list (WatcherKind * string * string),
      run (map (λ e, FsEvent e.1.1 e.1.2 e.2) events) s = s.
Proof.
  cbv zeta.
  split; [apply (bool_decide_unpack _); vm_compute; exact I|].
  split; [vm_compute; reflexivity|].
  split; [vm_compute; reflexivity|].
  split; [vm_compute; reflexivity|].
  split; [vm_compute; reflexivity|].
  split; [vm_compute; reflexivity|].
  assert (P1 : paths (inputWatcher
                 (run [Resume 1 Rejects; TimerFires] Examples.rebuilding)) = ∅)
    by (vm_compute; reflexivity).
  assert (P2 : paths (moduleWatcher
                 (run [Resume 1 Rejects; TimerFires] Examples.rebuilding)) = ∅)
    by (vm_compute; reflexivity).
  split; [exact P1|]. split; [exact P2|].
  split; [vm_compute; repeat split|].
  revert P1 P2.
  generalize (run [Resume 1 Rejects; TimerFires] Examples.rebuilding).
  intros s P1 P2 events.
  induction events as [|e events IH]; [reflexivity|].
  cbn [map]. rewrite (run_cons (FsEvent e.1.1 e.1.2 e.2)).
  rewrite fsEvent_nothing_watched by assumption.
  exact IH.
Qed.

(** *** The first build *)

(** [triggerBuild] returns a result that has the three fields, so the
    [validateResult] of [incrementalBuild] itself never throws. *)
Lemma validate_toResult (r : Incremental.t) :
  validateResult (Incremental.toResult r) = inr r.
Proof. destruct r; reflexivity. Qed.

Lemma incrementalBuild_reports_no_option (outcomes : list Outcome)
    (message : string) :
  (incrementalBuild outcomes).2 ≠ Throws (Some message).
Proof.
  unfold incrementalBuild.
  destruct (tasks _ !! 0) as [t|]; [|discriminate].
  destruct t; discriminate.
Qed.

(** An invalid first result is caught inside [triggerBuild]. *)
Lemma invalid_first_result (result : Result.t) (message : string) :
  validateResult result = inl message →
  (incrementalBuild [Resolves; Resolves; ResolvesWith result]).2
  = Returns (NULL_RESULT TriggerBuild).
Proof.
  intros H. unfold incrementalBuild. cbn [map].
  rewrite !run_cons. cbn [run fold_left].
  rewrite (step_resume 0 AwaitRebuild) by (vm_compute; reflexivity).
  cbn [resume]. rewrite H. vm_compute. reflexivity.
Qed.

(** C10, at the failing input.  The bundler's first result has no
    metafile.  [validateResult] rejects it with the message that names
    the option, but inside the [try] of [triggerBuild]: the error is
    caught, and [incrementalBuild] returns the null result instead of
    throwing. *)
Theorem missing_metafile_is_not_reported :
  let result := Result.make [] [] None (Some []) (Some (ResultRebuild 1)) in
  validateResult result = inl (optionMessage "metafile" "true")
  ∧ (incrementalBuild [Resolves; Resolves; ResolvesWith result]).2
    = Returns (NULL_RESULT TriggerBuild).
Proof. cbv zeta. split; vm_compute; reflexivity. Qed.

End BuildFacts.

(* ===================================================================== *)
(** * The sass plugin's cache: facts *)
(* ===================================================================== *)

Module CacheFacts.

Import SassPlugin.

Section Plugin.

Variable stat : string → option Q.
Variable readFileSync : string → Res string.
Variable sassRenderSync : string → Res (string * list string).
Variable optionsTransform : option (string → string → Res string).
Variable dirname : string → string.
Variable typeOf : OnResolveArgs → string.
Variable resolve : OnResolveArgs → Res string.

#[local] Abbreviation transformResult :=
  (SassPlugin.transformResult readFileSync sassRenderSync optionsTransform
     dirname).
#[local] Abbreviation refresh :=
  (SassPlugin.refresh readFileSync sassRenderSync optionsTransform dirname).
#[local] Abbreviation cached :=
  (SassPlugin.cached stat readFileSync sassRenderSync optionsTransform
     dirname typeOf resolve).

(** *** [Math.max] and [>] *)

Lemma gt_true (a b : Q) : gt a b = true ↔ (b < a)%Q.
Proof.
  unfold gt. rewrite negb_true_iff. split.
  - intros H. apply Qnot_le_lt. intros Hle.
    apply Qle_bool_iff in Hle. congruence.
  - intros H. destruct (Qle_bool a b) eqn:E; [|reflexivity].
    apply Qle_bool_iff in E. exfalso. exact (Qlt_not_le _ _ H E).
Qed.

Lemma gt_false (a b : Q) : gt a b = false ↔ (a <= b)%Q.
Proof.
  unfold gt. rewrite negb_false_iff. apply Qle_bool_iff.
Qed.

Lemma fold_max_ge (stats : list Q) :
  ∀ (m0 : Q),
    (m0 <= fold_left (λ max mtimeMs, Qminmax.Qmax max mtimeMs) stats m0)%Q
    ∧ ∀ m, In m stats →
           (m <= fold_left (λ max mtimeMs, Qminmax.Qmax max mtimeMs) stats m0)%Q.
Proof.
  induction stats as [|x stats IH]; intros m0; cbn [fold_left].
  - split; [apply Qle_refl|intros m []].
  - destruct (IH (Qminmax.Qmax m0 x)) as [H0 H1]. split.
    + eapply Qle_trans; [apply Q.le_max_l|exact H0].
    + intros m [<-|Hm]; [|now apply H1].
      eapply Qle_trans; [apply Q.le_max_r|exact H0].
Qed.

(** [maxMtimeMs] bounds every stat. *)
Lemma maxMtimeMs_ge (stats : list Q) (m : Q) :
  In m stats → (m <= maxMtimeMs stats)%Q.
Proof. intros H. now apply (fold_max_ge stats 0%Q). Qed.

(** *** The loop of the hit branch *)

(** No stat is newer than the mark: nothing is recomputed. *)
Lemma refresh_fresh (dir path : string) (c : CachedResult)
    (allStats stats : list Q) (st : Store) :
  (∀ m, In m stats → (m <= mtimeMs c)%Q) →
  refresh dir path c allStats stats st = (st, Ok c).
Proof.
  induction stats as [|m stats IH]; intros H; [reflexivity|].
  cbn [SassPlugin.refresh].
  assert (gt m (mtimeMs c) = false) as ->.
  { apply gt_false, H. now left. }
  apply IH. intros m' Hm'. apply H. now right.
Qed.

(** The first stat newer than the mark makes one call of [transform],
    on the first watch file; the entry is replaced when it returns. *)
Lemma refresh_stale (dir path : string) (c : CachedResult)
    (allStats fresh rest : list Q) (m : Q) (first : string)
    (others : list string) (st : Store) :
  (∀ x, In x fresh → (x <= mtimeMs c)%Q) →
  (mtimeMs c < m)%Q →
  Load.watchFiles (result c) = first :: others →
  refresh dir path c allStats (fresh ++ m :: rest) st =
    let st1 := {| cache := cache st;
                  transforms := transforms st ++ [(first, type c)] |} in
    match transformResult first (type c) with
    | Ok r =>
        let c' := {| type := type c; mtimeMs := maxMtimeMs allStats;
                     result := r |} in
        ({| cache := <[ dir := <[ path := c' ]> (default ∅ (cache st !! dir)) ]>
                       (cache st);
            transforms := transforms st1 |}, Ok c')
    | Throw e => (st1, Throw e)
    end.
Proof.
  intros Hfresh Hm Hfiles.
  induction fresh as [|x fresh IH].
  - cbn [app SassPlugin.refresh].
    apply gt_true in Hm. rewrite Hm, Hfiles.
    unfold bind, SassPlugin.transform, bind, logTransform, lift.
    cbv zeta. destruct (transformResult first (type c)); reflexivity.
  - cbn [app SassPlugin.refresh].
    assert (gt x (mtimeMs c) = false) as ->.
    { apply gt_false, Hfresh. now left. }
    apply IH. intros y Hy. apply Hfresh. now right.
Qed.

(** *** Unfolding [cached] *)

Lemma entry_Some (st : Store) (scope path : string) (c : CachedResult) :
  entry st scope path = Some c ↔
    ∃ group, cache st !! scope = Some group ∧ group !! path = Some c.
Proof.
  unfold entry. destruct (cache st !! scope) as [group|]; cbn.
  - split; [eauto|]. intros (g & [= <-] & H). exact H.
  - split; [discriminate|]. intros (g & [=] & _).
Qed.

Lemma cached_hit (args : OnResolveArgs) (st : Store) (c : CachedResult) :
  entry st (resolveDir args) (path args) = Some c →
  cached args st =
    match collectStats stat (Load.watchFiles (result c)) with
    | Throw e => (st, Throw e)
    | Ok stats =>
        match refresh (resolveDir args) (path args) c stats stats st with
        | (st', Ok c') => (st', Ok (result c'))
        | (st', Throw e) => (st', Throw e)
        end
    end.
Proof.
  intros H. apply entry_Some in H as (group & Hg & Hc).
  unfold SassPlugin.cached, bind, getCache, ret, lift. rewrite Hg, Hc.
  destruct (collectStats stat (Load.watchFiles (result c))); [|reflexivity].
  destruct (refresh _ _ _ _ _ _) as [st' [c'|e]]; reflexivity.
Qed.

Lemma cached_miss (args : OnResolveArgs) (st : Store) :
  entry st (resolveDir args) (path args) = None →
  cached args st =
    let st0 := withGroup (resolveDir args) st in
    match resolve args with
    | Throw e => (st0, Throw e)
    | Ok filename =>
        let st1 := {| cache := cache st0;
                      transforms := transforms st0
                                      ++ [(filename, typeOf args)] |} in
        match transformResult filename (typeOf args) with
        | Throw e => (st1, Throw e)
        | Ok r =>
            match collectStats stat (Load.watchFiles r) with
            | Throw e => (st1, Throw e)
            | Ok stats =>
                ({| cache :=
                      <[ resolveDir args :=
                           <[ path args :=
                                {| type := typeOf args;
                                   mtimeMs := maxMtimeMs stats;
                                   result := r |} ]>
                             (default ∅ (cache st1 !! resolveDir args)) ]>
                        (cache st1);
                    transforms := transforms st1 |}, Ok r)
            end
        end
    end.
Proof.
  intros H. unfold entry in H.
  unfold SassPlugin.cached, withGroup, bind, getCache, setCache, ret, lift,
    SassPlugin.transform, setEntry, bind, logTransform, getCache, setCache,
    lift.
  destruct (cache st !! resolveDir args) as [group|] eqn:Hg; cbn in H.
  - rewrite H. cbv zeta.
    destruct (resolve args) as [filename|e]; [|reflexivity]. cbn.
    destruct (transformResult filename (typeOf args)) as [r|e];
      [|reflexivity].
    destruct (collectStats stat (Load.watchFiles r)); reflexivity.
  - rewrite lookup_empty. cbv zeta.
    destruct (resolve args) as [filename|e]; [|reflexivity]. cbn.
    destruct (transformResult filename (typeOf args)) as [r|e];
      [|reflexivity].
    destruct (collectStats stat (Load.watchFiles r)); reflexivity.
Qed.

Lemma entry_withGroup (dir scope path : string) (st : Store) :
  entry (withGroup dir st) scope path = entry st scope path.
Proof.
  unfold withGroup, entry.
  destruct (cache st !! dir) as [group|] eqn:Hg; [reflexivity|]. cbn.
  destruct (decide (scope = dir)) as [->|Hne].
  - rewrite lookup_insert_eq, Hg. cbn. apply lookup_empty.
  - now rewrite lookup_insert_ne by congruence.
Qed.

Lemma collectStats_app (stat' : string → option Q) (files : list string)
    (stats : list Q) :
  collectStats stat' files = Ok stats → length stats = length files.
Proof.
  revert stats; induction files as [|f files IH]; intros stats H.
  - injection H as <-. reflexivity.
  - cbn in H. destruct (stat' f); [|discriminate].
    destruct (collectStats stat' files) as [rest|]; [|discriminate].
    injection H as <-. cbn. f_equal. now apply IH.
Qed.

Lemma collectStats_ext (stat' : string → option Q) (files : list string) :
  (∀ f, In f files → stat' f = stat f) →
  collectStats stat' files = collectStats stat files.
Proof.
  induction files as [|f files IH]; intros H; [reflexivity|].
  cbn. rewrite (H f) by now left.
  rewrite IH; [reflexivity|]. intros g Hg. apply H. now right.
Qed.

(** Either no stat is newer than the mark, or there is a first one. *)
Lemma first_stale (mark : Q) (stats : list Q) :
  (∀ m, In m stats → (m <= mark)%Q)
  ∨ ∃ fresh m rest, stats = fresh ++ m :: rest
                    ∧ (∀ x, In x fresh → (x <= mark)%Q) ∧ (mark < m)%Q.
Proof.
  induction stats as [|x stats IH].
  - left. intros m [].
  - destruct (gt x mark) eqn:Hx.
    + right. exists [], x, stats. split; [reflexivity|].
      split; [intros y []|now apply gt_true].
    + apply gt_false in Hx. destruct IH as [IH|(fresh & m & rest & -> & Hf & Hm)].
      * left. intros m [<-|Hm]; auto.
      * right. exists (x :: fresh), m, rest. split; [reflexivity|].
        split; [|exact Hm]. intros y [<-|Hy]; auto.
Qed.

Lemma snoc_neq {A} (l : list A) (x : A) : l ≠ l ++ [x].
Proof.
  intros H. apply (f_equal (@length A)) in H.
  rewrite List.length_app in H. cbn in H. lia.
Qed.

(** *** The properties of the cache *)

(** C3.  Cache invalidation: the entry of a (scope, path) key lists
    the dependencies [A; B] and [A] is newer than the entry's mark.
    A lookup of the key calls [transform] exactly once, on [A] and
    with the entry's type; when the transform returns, its result is
    the lookup's result and the new entry's, and the new mark is at
    least the maximum of the modification times of [A] and [B]. *)
Theorem cache_invalidation (args : OnResolveArgs) (st st' : Store)
    (out : Res Load.t) (c : CachedResult) (A B : string) (mA mB : Q) :
  entry st (resolveDir args) (path args) = Some c →
  Load.watchFiles (result c) = [A; B] →
  stat A = Some mA → stat B = Some mB →
  (mtimeMs c < mA)%Q →
  cached args st = (st', out) →
  transforms st' = transforms st ++ [(A, type c)]
  ∧ match transformResult A (type c) with
    | Ok r =>
        out = Ok r
        ∧ ∃ c', entry st' (resolveDir args) (path args) = Some c'
                ∧ result c' = r ∧ type c' = type c
                ∧ (Qminmax.Qmax mA mB <= mtimeMs c')%Q
    | Throw e => out = Throw e
    end.
Proof.
  intros He Hfiles HA HB Hstale Hrun.
  rewrite (cached_hit args st c He), Hfiles in Hrun.
  cbn [collectStats] in Hrun. rewrite HA, HB in Hrun.
  rewrite (refresh_stale _ _ c [mA; mB] [] [mB] mA A [B]) in Hrun;
    [|intros x []|exact Hstale|exact Hfiles].
  cbv zeta in Hrun.
  destruct (transformResult A (type c)) as [r|e].
  - injection Hrun as <- <-. cbn. split; [reflexivity|].
    split; [reflexivity|]. eexists. split.
    + unfold entry. cbn. rewrite lookup_insert_eq. cbn.
      apply lookup_insert_eq.
    + split; [reflexivity|]. split; [reflexivity|].
      change (Qminmax.Qmax mA mB <= maxMtimeMs [mA; mB])%Q.
      apply Q.max_lub; apply maxMtimeMs_ge; [left|right; left];
        reflexivity.
  - injection Hrun as <- <-. cbn. auto.
Qed.

(** C9.  Transform-failure atomicity: when the [transform] call a
    lookup makes throws, the lookup throws the same error and every
    entry of the cache is as it was before; after a miss the key has
    no entry. *)
Theorem transform_failure_atomicity (args : OnResolveArgs) (st st' : Store)
    (out : Res Load.t) (file type : string) (e : string) :
  cached args st = (st', out) →
  transforms st' = transforms st ++ [(file, type)] →
  transformResult file type = Throw e →
  out = Throw e
  ∧ ∀ scope path, entry st' scope path = entry st scope path.
Proof.
  intros Hrun Hlog Hthrow.
  destruct (entry st (resolveDir args) (path args)) as [c|] eqn:He.
  - rewrite (cached_hit args st c He) in Hrun.
    destruct (collectStats stat (Load.watchFiles (result c)))
      as [stats|e'] eqn:Hstats.
    2:{ injection Hrun as <- <-. destruct (snoc_neq _ _ Hlog). }
    destruct (first_stale (mtimeMs c) stats)
      as [Hfresh|(fresh & m & rest & -> & Hfresh & Hm)].
    { rewrite refresh_fresh in Hrun by exact Hfresh.
      injection Hrun as <- <-. destruct (snoc_neq _ _ Hlog). }
    destruct (Load.watchFiles (result c)) as [|first others] eqn:Hfiles.
    { apply collectStats_app in Hstats.
      rewrite List.length_app in Hstats. cbn in Hstats. lia. }
    rewrite (refresh_stale _ _ c _ fresh rest m first others st
               Hfresh Hm Hfiles) in Hrun.
    cbv zeta in Hrun.
    destruct (transformResult first (SassPlugin.type c)) as [r|e'] eqn:Ht.
    + injection Hrun as <- <-. cbn in Hlog.
      apply app_inv_head in Hlog. injection Hlog as <- <-. congruence.
    + injection Hrun as <- <-. cbn in Hlog.
      apply app_inv_head in Hlog. injection Hlog as <- <-.
      split; [congruence|]. reflexivity.
  - rewrite (cached_miss args st He) in Hrun. cbv zeta in Hrun.
    destruct (resolve args) as [filename|e'].
    2:{ injection Hrun as <- <-. unfold withGroup in Hlog.
        destruct (cache st !! resolveDir args);
          destruct (snoc_neq _ _ Hlog). }
    assert (Ht : transforms (withGroup (resolveDir args) st) = transforms st).
    { unfold withGroup. destruct (cache st !! resolveDir args); reflexivity. }
    destruct (transformResult filename (typeOf args)) as [r|e'] eqn:Hr.
    + destruct (collectStats stat (Load.watchFiles r)) as [stats|e'];
        injection Hrun as <- <-; cbn in Hlog; rewrite Ht in Hlog;
        apply app_inv_head in Hlog; injection Hlog as <- <-; congruence.
    + injection Hrun as <- <-. cbn in Hlog. rewrite Ht in Hlog.
      apply app_inv_head in Hlog. injection Hlog as <- <-.
      split; [congruence|]. intros scope p.
      apply (entry_withGroup (resolveDir args) scope p st).
Qed.

End Plugin.

Section Idempotence.

Variables stat stat' : string → option Q.
Variable readFileSync : string → Res string.
Variable sassRenderSync : string → Res (string * list string).
Variable optionsTransform : option (string → string → Res string).
Variable dirname : string → string.
Variable typeOf : OnResolveArgs → string.
Variable resolve : OnResolveArgs → Res string.

(** C8.  Cache idempotence: a lookup that missed has stored its
    result; while no dependency file of that result changes its
    modification time, the next lookup of the key returns the same
    result and leaves the store as it is: [transform] is not called. *)
Theorem cache_idempotence (args : OnResolveArgs) (st st1 : Store)
    (r : Load.t) :
  entry st (resolveDir args) (path args) = None →
  cached stat readFileSync sassRenderSync optionsTransform dirname typeOf
    resolve args st = (st1, Ok r) →
  (∀ f, In f (Load.watchFiles r) → stat' f = stat f) →
  cached stat' readFileSync sassRenderSync optionsTransform dirname typeOf
    resolve args st1 = (st1, Ok r)
  ∧ ∃ c, entry st1 (resolveDir args) (path args) = Some c ∧ result c = r.
Proof.
  intros Hmiss Hput Hsame.
  rewrite (cached_miss stat readFileSync sassRenderSync optionsTransform
             dirname typeOf resolve args st Hmiss) in Hput.
  cbv zeta in Hput.
  destruct (resolve args) as [filename|e]; [|discriminate].
  destruct (transformResult readFileSync sassRenderSync optionsTransform
              dirname filename (typeOf args)) as [r'|e];
    [|discriminate].
  destruct (collectStats stat (Load.watchFiles r')) as [stats|e] eqn:Hstats;
    [|discriminate].
  injection Hput as <- <-.
  set (c := {| type := typeOf args; mtimeMs := maxMtimeMs stats;
               result := r' |}).
  match goal with |- context [cached _ _ _ _ _ _ _ _ ?s] =>
    set (st1 := s) end.
  assert (He : entry st1 (resolveDir args) (path args) = Some c).
  { unfold entry, st1. cbn. rewrite lookup_insert_eq. cbn.
    apply lookup_insert_eq. }
  split; [|exists c; auto].
  rewrite (cached_hit stat' readFileSync sassRenderSync optionsTransform
             dirname typeOf resolve args st1 c He).
  cbn [result c].
  rewrite (collectStats_ext stat stat' _ Hsame), Hstats.
  rewrite refresh_fresh; [reflexivity|].
  intros m Hm. cbn. now apply maxMtimeMs_ge.
Qed.

End Idempotence.

(** *** Instances *)

Lemma cache_invalidation_witness :
  let run := CacheExamples.lookup "a.scss" CacheExamples.stale in
  transforms run.1 = [("src/a.scss", "css")]
  ∧ run.2 = Ok (Load.make "a{b:c}" "css" "src" ["src/a.scss"; "src/b.scss"])
  ∧ ∃ c', entry run.1 "src" "a.scss" = Some c'
          ∧ result c' = Load.make "a{b:c}" "css" "src"
                          ["src/a.scss"; "src/b.scss"]
          ∧ type c' = "css"
          ∧ (Qminmax.Qmax 200 150 <= mtimeMs c')%Q.
Proof.
  cbv zeta.
  apply (cache_invalidation CacheExamples.stat CacheExamples.readFileSync
           CacheExamples.sassRenderSync None CacheExamples.dirname
           CacheExamples.typeOf CacheExamples.resolve
           (CacheExamples.args "a.scss") CacheExamples.stale
           (CacheExamples.lookup "a.scss" CacheExamples.stale).1
           (CacheExamples.lookup "a.scss" CacheExamples.stale).2
           CacheExamples.old "src/a.scss" "src/b.scss" 200%Q 150%Q).
  - vm_compute. reflexivity.
  - reflexivity.
  - reflexivity.
  - reflexivity.
  - reflexivity.
  - vm_compute. reflexivity.
Defined.

Lemma cache_idempotence_witness :
  let r := Load.make "a{b:c}" "css" "src" ["src/a.scss"; "src/b.scss"] in
  let st1 := (CacheExamples.lookup "a.scss" CacheExamples.empty).1 in
  CacheExamples.lookup "a.scss" st1 = (st1, Ok r)
  ∧ ∃ c, entry st1 "src" "a.scss" = Some c ∧ result c = r.
Proof.
  cbv zeta.
  apply (cache_idempotence CacheExamples.stat CacheExamples.stat
           CacheExamples.readFileSync CacheExamples.sassRenderSync None
           CacheExamples.dirname CacheExamples.typeOf CacheExamples.resolve
           (CacheExamples.args "a.scss") CacheExamples.empty).
  - vm_compute. reflexivity.
  - vm_compute. reflexivity.
  - reflexivity.
Defined.

Lemma transform_failure_atomicity_witness :
  let run := CacheExamples.lookup "bad.scss" CacheExamples.stale in
  run.2 = Throw "Undefined variable"
  ∧ ∀ scope path,
      entry run.1 scope path = entry CacheExamples.stale scope path.
Proof.
  cbv zeta.
  apply (transform_failure_atomicity CacheExamples.stat
           CacheExamples.readFileSync CacheExamples.sassRenderSync None
           CacheExamples.dirname CacheExamples.typeOf CacheExamples.resolve
           (CacheExamples.args "bad.scss") CacheExamples.stale
           (CacheExamples.lookup "bad.scss" CacheExamples.stale).1
           (CacheExamples.lookup "bad.scss" CacheExamples.stale).2
           "src/bad.scss" "css" "Undefined variable").
  - vm_compute. reflexivity.
  - vm_compute. reflexivity.
  - vm_compute. reflexivity.
Defined.

End CacheFacts.

(* ===================================================================== *)
(** * The request handler: facts *)
(* ===================================================================== *)

Module ServeFacts.

Import Serve.

(** The promise of [wait()] resolves at once when no build is running;
    otherwise it resolves when ['end'] is emitted next. *)
Lemma wait_idle (ctl : IncrementalBuild.State) :
  IncrementalBuild.running ctl = false →
  IncrementalBuild.released (IncrementalBuild.wait ctl)
  = S (IncrementalBuild.released ctl)
  ∧ IncrementalBuild.evt (IncrementalBuild.wait ctl) = IncrementalBuild.evt ctl.
Proof. intros H. unfold IncrementalBuild.wait. rewrite H. auto. Qed.

Lemma wait_running (ctl : IncrementalBuild.State) :
  IncrementalBuild.running ctl = true →
  IncrementalBuild.released (IncrementalBuild.wait ctl)
  = IncrementalBuild.released ctl
  ∧ IncrementalBuild.evt (IncrementalBuild.wait ctl)
    = S (IncrementalBuild.evt ctl)
  ∧ IncrementalBuild.released
      (IncrementalBuild.emitEnd (IncrementalBuild.wait ctl))
    = IncrementalBuild.released ctl + S (IncrementalBuild.evt ctl).
Proof. intros H. unfold IncrementalBuild.wait. rewrite H. auto. Qed.

Section Server.

Variable Disk : Type.
Variable StaticReply : Type.
Variable URL : Type.
Variable serveStatic : Disk → string → bool → Request → option StaticReply.
Variable lrHandler : option (Request → bool).
Variable parseURL : string → option URL.
Variable stripPublicPath : string → URL → option string.

(** What the static handlers answer. *)
Lemma staticHandler_cases (cfg : Config) (disk : Disk) (req : Request)
    (next : unit → Response StaticReply) :
  let answer := staticHandler serveStatic cfg disk req next in
  (∀ dir reply,
      secondaryRoot cfg = Some dir →
      serveStatic disk dir true req = Some reply →
      answer = Static reply)
  ∧ (∀ reply,
        (∀ dir, secondaryRoot cfg = Some dir →
                serveStatic disk dir true req = None) →
        serveStatic disk (absOutDir cfg) false req = Some reply →
        answer = Static reply)
  ∧ (unanswered serveStatic cfg disk req → answer = next tt).
Proof.
  cbv zeta. unfold unanswered, staticHandler, servedirHandler, outputHandler,
    middleware, secondaryRoot.
  destruct (servedir cfg) as [dir|]; [destruct (truthy dir)|].
  - split; [|split].
    + intros d reply [= <-] ->. reflexivity.
    + intros reply H ->. now rewrite (H dir eq_refl).
    + intros [H ->]. now rewrite (H dir eq_refl).
  - split; [|split].
    + intros d reply [=].
    + intros reply _ ->. reflexivity.
    + intros [_ ->]. reflexivity.
  - split; [|split].
    + intros d reply [=].
    + intros reply _ ->. reflexivity.
    + intros [_ ->]. reflexivity.
Qed.


End Server.



End ServeFacts.

(* ===================================================================== *)
(** * The controller: the course of one build *)
(* ===================================================================== *)

Module LifecycleFacts.

Import IncrementalBuild Spec Lifecycle WatchFacts BuildFacts.

(** *** A build between its calls of [close] and its return *)

Lemma close_watch (w : Watcher) : close w = watch.
Proof. reflexivity. Qed.

Lemma quiet_step_closed (a : Action) (s : State) :
  quiet a = true → running s = true →
  (inputWatcher s = watch → inputWatcher (step a s) = watch)
  ∧ (moduleWatcher s = watch → moduleWatcher (step a s) = watch).
Proof.
  intros Hq Hrun. destruct a as [| |i o| |k event file]; try discriminate;
    cbn [step].
  - unfold wait. rewrite Hrun. cbn. auto.
  - destruct (timers s) as [|n]; [auto|].
    unfold armWatchers. cbn. rewrite Hrun. cbn. auto.
  - unfold fsEvent, onEvent. destruct k.
    + destruct (sees Inputs (inputWatcher s) file); [|auto].
      cbn. rewrite Hrun. cbn. split; [|auto].
      intros ->. reflexivity.
    + destruct (sees Modules (moduleWatcher s) file && String.eqb event "change");
        [|auto].
      cbn. rewrite Hrun. cbn. split; [auto|].
      intros ->. reflexivity.
Qed.

Lemma phase_quiet_step (a : Action) (cm : bool) (h : Handle)
    (inv : list Handle) (n i : nat) (t : Task) (s : State) :
  quiet a = true → phase cm h inv n i t s → phase cm h inv n i t (step a s).
Proof.
  intros Hq (R & T & W1 & W2 & I & M & B & V & Tm).
  destruct (quiet_step a s Hq R) as (R' & T' & B' & V' & Tm' & _).
  destruct (quiet_step_closed a s Hq R) as [I' M'].
  destruct (step_watched a s) as [W1' W2'].
  unfold phase. rewrite T', B', V', W1', W2'.
  repeat split; auto. lia.
Qed.

Lemma phase_quiet (q : list Action) (cm : bool) (h : Handle)
    (inv : list Handle) (n i : nat) (t : Task) :
  ∀ s, forallb quiet q = true → phase cm h inv n i t s →
       phase cm h inv n i t (run q s).
Proof.
  induction q as [|a q IH]; intros s Hq H; [exact H|].
  cbn [forallb] in Hq. apply andb_prop in Hq as [Ha Hq].
  rewrite run_cons. apply IH; [exact Hq|]. now apply phase_quiet_step.
Qed.

Lemma phase_call (s : State) :
  watchedInputs s = ∅ → watchedModules s = ∅ →
  phase false (rebuild s) (invocations s) (timers s) (length (tasks s))
    AwaitCloseInputs (step CallTriggerBuild s).
Proof.
  intros W1 W2. unfold phase. cbn.
  repeat split; auto; [apply lookup_insert_new|discriminate].
Qed.

Lemma phase_bound (cm : bool) (h : Handle) (inv : list Handle) (n i : nat)
    (t : Task) (s : State) :
  phase cm h inv n i t s → i < length (tasks s).
Proof. intros (_ & T & _). eapply lookup_lt_Some, T. Qed.

Lemma phase_closeInputs (h : Handle) (inv : list Handle) (n i : nat)
    (s : State) :
  phase false h inv n i AwaitCloseInputs s →
  phase true h inv n i AwaitCloseModules (step (Resume i Resolves) s).
Proof.
  intros H. pose proof (phase_bound _ _ _ _ _ _ _ H) as Hi.
  destruct H as (R & T & W1 & W2 & I & M & B & V & Tm).
  rewrite (step_resume _ _ _ _ T). unfold phase. cbn.
  repeat split; auto. now apply list_lookup_insert_eq.
Qed.

Lemma phase_closeModules (h : Handle) (inv : list Handle) (n i : nat)
    (s : State) :
  phase true h inv n i AwaitCloseModules s →
  phase true h (inv ++ [h]) n i AwaitRebuild (step (Resume i Resolves) s).
Proof.
  intros H. pose proof (phase_bound _ _ _ _ _ _ _ H) as Hi.
  destruct H as (R & T & W1 & W2 & I & M & B & V & Tm).
  rewrite (step_resume _ _ _ _ T). unfold phase. cbn.
  repeat split; auto; [now apply list_lookup_insert_eq|congruence].
Qed.

Lemma phase_rebuilt (h : Handle) (inv : list Handle) (n i : nat)
    (result : Result.t) (r : Incremental.t) (s : State) :
  validateResult result = inr r →
  phase true h inv n i AwaitRebuild s →
  phase true h inv n i (AwaitOnBuildResult r)
    (step (Resume i (ResolvesWith result)) s).
Proof.
  intros Hv H. pose proof (phase_bound _ _ _ _ _ _ _ H) as Hi.
  destruct H as (R & T & W1 & W2 & I & M & B & V & Tm).
  rewrite (step_resume _ _ _ _ T). unfold phase. cbn. rewrite Hv. cbn.
  repeat split; auto. now apply list_lookup_insert_eq.
Qed.

(** The state when the bundler has been invoked. *)
Lemma phase_untilBundler (s : State) (q1 q2 q3 : list Action) :
  reachable s →
  forallb quiet (q1 ++ q2 ++ q3) = true →
  let i := length (tasks s) in
  phase true (rebuild s) (invocations s ++ [rebuild s]) (timers s) i
    AwaitRebuild (run (untilBundler i q1 q2 q3) s).
Proof.
  intros Hreach Hq i.
  rewrite !forallb_app in Hq.
  apply andb_prop in Hq as [Hq1 Hq]. apply andb_prop in Hq as [Hq2 Hq3].
  destruct (reachable_watched s Hreach) as [W1 W2].
  unfold untilBundler.
  rewrite run_cons, run_app, run_cons, run_app, run_cons.
  apply phase_quiet; [exact Hq3|].
  apply phase_closeModules, phase_quiet; [exact Hq2|].
  apply phase_closeInputs, phase_quiet; [exact Hq1|].
  now apply phase_call.
Qed.

(** What the [catch] block leaves. *)
Lemma phase_catch (h : Handle) (inv : list Handle) (n i : nat) (t : Task)
    (o : Outcome) (s : State) :
  fails t o →
  phase true h inv n i t s →
  let s' := step (Resume i o) s in
  tasks s' !! i = Some (Returned (NULL_RESULT h))
  ∧ rebuild s' = h ∧ invocations s' = inv
  ∧ running s' = false
  ∧ inputWatcher s' = watch ∧ moduleWatcher s' = watch
  ∧ timers s' = S (timers s)
  ∧ evt s' = 0 ∧ released s' = released s + evt s.
Proof.
  intros Hf H. pose proof (phase_bound _ _ _ _ _ _ _ H) as Hi.
  destruct H as (R & T & W1 & W2 & I & M & B & V & Tm).
  cbv zeta. rewrite (step_resume _ _ _ _ T).
  assert (E : resume i t o s = triggerBuild_catch i s).
  { destruct t, o; cbn in Hf; try contradiction; try reflexivity.
    destruct Hf as [m Hm]. cbn. now rewrite Hm. }
  rewrite E. cbn. rewrite B.
  repeat split; auto. now apply list_lookup_insert_eq.
Qed.

Lemma add_watch (ps : gset string) :
  add ps (unwatch [] watch) = {| paths := ps; listeners := 0 |}.
Proof.
  unfold add, unwatch, watch. cbn. f_equal.
  apply set_eq. intros x.
  rewrite elem_of_union, elem_of_difference. split.
  - intros [[H _]|H]; [now apply elem_of_empty in H|exact H].
  - auto.
Qed.

(** What the last continuation of a successful build leaves. *)
Lemma phase_finish (h : Handle) (inv : list Handle) (n i : nat)
    (r : Incremental.t) (s : State) :
  phase true h inv n i (AwaitOnBuildResult r) s →
  let s' := step (Resume i Resolves) s in
  let added := visitInputs ∅ ∅ (inputs (Incremental.metafile r)) in
  tasks s' !! i = Some (Returned r)
  ∧ rebuild s' = Incremental.rebuild r ∧ invocations s' = inv
  ∧ running s' = false
  ∧ inputWatcher s' = {| paths := added.1; listeners := 0 |}
  ∧ moduleWatcher s' = {| paths := added.2; listeners := 0 |}
  ∧ timers s' = S (timers s)
  ∧ evt s' = 0 ∧ released s' = released s + evt s.
Proof.
  intros H. pose proof (phase_bound _ _ _ _ _ _ _ H) as Hi.
  destruct H as (R & T & W1 & W2 & I & M & B & V & Tm).
  cbv zeta. rewrite (step_resume _ _ _ _ T).
  cbn. rewrite W1, W2, !removedFrom_empty, I, M by reflexivity.
  rewrite !add_watch.
  repeat split; auto. now apply list_lookup_insert_eq.
Qed.

(** *** Whole builds *)

Lemma success_run (s : State) (result : Result.t) (r : Incremental.t)
    (q1 q2 q3 q4 : list Action) :
  reachable s →
  validateResult result = inr r →
  forallb quiet (q1 ++ q2 ++ q3) = true → forallb quiet q4 = true →
  let i := length (tasks s) in
  let s' := run (successful i q1 q2 q3 q4 result) s in
  let added := visitInputs ∅ ∅ (inputs (Incremental.metafile r)) in
  tasks s' !! i = Some (Returned r)
  ∧ rebuild s' = Incremental.rebuild r
  ∧ invocations s' = invocations s ++ [rebuild s]
  ∧ running s' = false
  ∧ inputWatcher s' = {| paths := added.1; listeners := 0 |}
  ∧ moduleWatcher s' = {| paths := added.2; listeners := 0 |}
  ∧ 1 ≤ timers s' ≤ S (timers s)
  ∧ evt s' = 0.
Proof.
  intros Hreach Hv Hq Hq4 i s' added.
  pose proof (phase_untilBundler s q1 q2 q3 Hreach Hq) as H. fold i in H.
  apply (phase_rebuilt _ _ _ _ _ _ _ Hv) in H.
  apply (phase_quiet q4) in H; [|exact Hq4].
  pose proof H as (_ & _ & _ & _ & _ & _ & _ & _ & Tm).
  apply phase_finish in H. cbv zeta in H.
  destruct H as (T & B & V & R & I & M & Tm' & E & _).
  unfold s', successful. rewrite run_app, run_cons, run_app.
  cbn [run fold_left]. fold added in I, M.
  rewrite T, B, V, R, I, M, Tm', E. repeat split; auto; lia.
Qed.

Lemma failure_run (s : State) (o : Outcome) (q1 q2 q3 : list Action) :
  reachable s →
  fails AwaitRebuild o →
  forallb quiet (q1 ++ q2 ++ q3) = true →
  let i := length (tasks s) in
  let s' := run (bundlerSettles i q1 q2 q3 o) s in
  tasks s' !! i = Some (Returned (NULL_RESULT (rebuild s)))
  ∧ rebuild s' = rebuild s
  ∧ invocations s' = invocations s ++ [rebuild s]
  ∧ running s' = false
  ∧ inputWatcher s' = watch ∧ moduleWatcher s' = watch
  ∧ 1 ≤ timers s' ≤ S (timers s)
  ∧ evt s' = 0.
Proof.
  intros Hreach Hf Hq i s'.
  pose proof (phase_untilBundler s q1 q2 q3 Hreach Hq) as H. fold i in H.
  pose proof H as (_ & _ & _ & _ & _ & _ & _ & _ & Tm).
  apply (phase_catch _ _ _ _ _ o _ Hf) in H. cbv zeta in H.
  destruct H as (T & B & V & R & I & M & Tm' & E & _).
  unfold s', bundlerSettles. rewrite run_app. cbn [run fold_left].
  rewrite T, B, V, R, I, M, Tm', E. repeat split; auto; lia.
Qed.

Lemma hook_failure_run (s : State) (result : Result.t) (r : Incremental.t)
    (q1 q2 q3 q4 : list Action) :
  reachable s →
  validateResult result = inr r →
  forallb quiet (q1 ++ q2 ++ q3) = true → forallb quiet q4 = true →
  let i := length (tasks s) in
  let s' := run (hookRejects i q1 q2 q3 q4 result) s in
  tasks s' !! i = Some (Returned (NULL_RESULT (rebuild s)))
  ∧ rebuild s' = rebuild s
  ∧ invocations s' = invocations s ++ [rebuild s]
  ∧ running s' = false
  ∧ inputWatcher s' = watch ∧ moduleWatcher s' = watch
  ∧ 1 ≤ timers s' ≤ S (timers s)
  ∧ evt s' = 0.
Proof.
  intros Hreach Hv Hq Hq4 i s'.
  pose proof (phase_untilBundler s q1 q2 q3 Hreach Hq) as H. fold i in H.
  apply (phase_rebuilt _ _ _ _ _ _ _ Hv) in H.
  apply (phase_quiet q4) in H; [|exact Hq4].
  pose proof H as (_ & _ & _ & _ & _ & _ & _ & _ & Tm).
  apply (phase_catch _ _ _ _ (AwaitOnBuildResult r) Rejects _ I) in H.
  cbv zeta in H.
  destruct H as (T & B & V & R & I & M & Tm' & E & _).
  unfold s', hookRejects. rewrite run_app, run_cons, run_app.
  cbn [run fold_left].
  rewrite T, B, V, R, I, M, Tm', E. repeat split; auto; lia.
Qed.





(** *** [wait] and the settle signal *)


(** *** One-shot listeners and the arming timeout *)

(** A watcher without listeners passes nothing on. *)
Lemma unarmed_event (k : WatcherKind) (event file : string) (s : State) :
  listeners (watcherOf k s) = 0 → step (FsEvent k event file) s = s.
Proof.
  destruct s as [b r e wi wm [p1 l1] [p2 l2] t ts inv rel].
  destruct k; cbn; intros ->.
  - destruct (bool_decide (file ∈ p1)); [|reflexivity].
    unfold onEvent. cbn. destruct r; [reflexivity|].
    unfold setTasks. cbn. now rewrite app_nil_r.
  - destruct (bool_decide _ && String.eqb event "change"); [|reflexivity].
    unfold onEvent. cbn. destruct r; [reflexivity|].
    unfold setTasks. cbn. now rewrite app_nil_r.
Qed.

Lemma unarmed_events (events : list (WatcherKind * string * string))
    (s : State) :
  listeners (inputWatcher s) = 0 → listeners (moduleWatcher s) = 0 →
  run (fsEvents events) s = s.
Proof.
  intros L1 L2. induction events as [|[[k event] file] events IH];
    [reflexivity|].
  unfold fsEvents. cbn [map]. rewrite run_cons. cbn [fst snd].
  rewrite unarmed_event; [exact IH|]. destruct k; assumption.
Qed.

Lemma delivered_event (k : WatcherKind) (event file : string) (s : State) :
  delivered k event file s = true →
  let s1 := step (FsEvent k event file) s in
  listeners (watcherOf k s1) = 0
  ∧ (running s = false →
     tasks s1 = tasks s ++ replicate (listeners (watcherOf k s))
                              AwaitOnWatchEvent).
Proof.
  intros Hd. cbv zeta. cbn [step]. unfold fsEvent, delivered in *.
  destruct k; rewrite Hd; unfold onEvent; cbn;
    destruct (running s); cbn; split; auto; discriminate.
Qed.




(** *** The first build *)

(** X10.  [incrementalBuild] on a first build that succeeds: it returns
    the bundler's result with [rebuild] replaced by [triggerBuild]; the
    bundler has run once, through [build(options)]; the controller holds
    the result's own [rebuild] handle for the next build and one arming
    timeout is pending. *)
Theorem incrementalBuild_success (result : Result.t) (r : Incremental.t) :
  validateResult result = inr r →
  let out := incrementalBuild [Resolves; Resolves; ResolvesWith result;
                               Resolves] in
  out.2 = Returns (Incremental.make (Incremental.errors r)
                     (Incremental.warnings r) (Incremental.metafile r)
                     (Incremental.outputFiles r) TriggerBuild)
  ∧ rebuild out.1 = Incremental.rebuild r
  ∧ invocations out.1 = [InitialBuild]
  ∧ running out.1 = false ∧ timers out.1 = 1.
Proof.
  intros Hv.
  assert (Hreach : reachable init) by (exists []; reflexivity).
  destruct (success_run init result r [] [] [] [] Hreach Hv eq_refl eq_refl)
    as (T & B & V & R & _ & _ & [Tm1 Tm2] & _).
  cbv zeta. unfold incrementalBuild.
  change (run (CallTriggerBuild
                 :: map (Resume 0) [Resolves; Resolves; ResolvesWith result;
                                    Resolves]) init)
    with (run (successful (length (tasks init)) [] [] [] [] result) init).
  change (length (tasks init)) with 0 in *.
  rewrite T, validate_toResult. cbn [fst snd].
  repeat split; auto. change (timers init) with 0 in Tm2. lia.
Qed.

(** X11.  A first build that fails does not make [incrementalBuild]
    throw: when the bundler promise rejects or brings a result that is
    not valid, or when the hook rejects a valid result,
    [incrementalBuild] returns the null result with [rebuild] set to
    [triggerBuild], and the controller keeps [build(options)] as its
    handle. *)
Theorem incrementalBuild_failure_returns_null (o : Outcome)
    (result : Result.t) (r : Incremental.t) :
  (fails AwaitRebuild o →
   let out := incrementalBuild [Resolves; Resolves; o] in
   out.2 = Returns (NULL_RESULT TriggerBuild) ∧ rebuild out.1 = InitialBuild)
  ∧ (validateResult result = inr r →
     let out := incrementalBuild [Resolves; Resolves; ResolvesWith result;
                                  Rejects] in
     out.2 = Returns (NULL_RESULT TriggerBuild) ∧ rebuild out.1 = InitialBuild).
Proof.
  assert (Hreach : reachable init) by (exists []; reflexivity).
  split.
  - intros Hf.
    destruct (failure_run init o [] [] [] Hreach Hf eq_refl) as (T & B & _).
    cbv zeta. unfold incrementalBuild.
    change (run (CallTriggerBuild :: map (Resume 0) [Resolves; Resolves; o])
              init)
      with (run (bundlerSettles (length (tasks init)) [] [] [] o) init).
    change (length (tasks init)) with 0 in *.
    rewrite T. cbn [fst snd]. split; [reflexivity|exact B].
  - intros Hv.
    destruct (hook_failure_run init result r [] [] [] [] Hreach Hv eq_refl
                eq_refl) as (T & B & _).
    cbv zeta. unfold incrementalBuild.
    change (run (CallTriggerBuild
                   :: map (Resume 0) [Resolves; Resolves; ResolvesWith result;
                                      Rejects]) init)
      with (run (hookRejects (length (tasks init)) [] [] [] [] result) init).
    change (length (tasks init)) with 0 in *.
    rewrite T. cbn [fst snd]. split; [reflexivity|exact B].
Qed.

(** *** [dispose] *)


(** *** Instances *)








Lemma incrementalBuild_success_witness :
  let out := incrementalBuild
               [Resolves; Resolves;
                ResolvesWith (Incremental.toResult Examples.gen1); Resolves] in
  out.2 = Returns (Incremental.make [] []
                     (Incremental.metafile Examples.gen1) [] TriggerBuild)
  ∧ rebuild out.1 = ResultRebuild 1
  ∧ invocations out.1 = [InitialBuild]
  ∧ running out.1 = false ∧ timers out.1 = 1.
Proof.
  apply (incrementalBuild_success (Incremental.toResult Examples.gen1)
           Examples.gen1).
  reflexivity.
Defined.

Lemma incrementalBuild_failure_returns_null_witness :
  (let out := incrementalBuild [Resolves; Resolves; Rejects] in
   out.2 = Returns (NULL_RESULT TriggerBuild) ∧ rebuild out.1 = InitialBuild)
  ∧ (let out := incrementalBuild
                  [Resolves; Resolves;
                   ResolvesWith (Incremental.toResult Examples.gen1);
                   Rejects] in
     out.2 = Returns (NULL_RESULT TriggerBuild)
     ∧ rebuild out.1 = InitialBuild).
Proof.
  destruct (incrementalBuild_failure_returns_null Rejects
              (Incremental.toResult Examples.gen1) Examples.gen1) as [H1 H2].
  split; [exact (H1 I)|exact (H2 eq_refl)].
Defined.


End LifecycleFacts.

(* ===================================================================== *)
(** * The sass plugin: hits, misses and what a lookup may change *)
(* ===================================================================== *)

Module LookupFacts.

Import SassPlugin SassOptions CacheFacts.

Section Plugin.

Variable stat : string → option Q.
Variable readFileSync : string → Res string.
Variable sassRenderSync : string → Res (string * list string).
Variable optionsTransform : option (string → string → Res string).
Variable dirname : string → string.
Variable typeOf : OnResolveArgs → string.
Variable resolve : OnResolveArgs → Res string.

#[local] Abbreviation transformResult :=
  (SassPlugin.transformResult readFileSync sassRenderSync optionsTransform
     dirname).
#[local] Abbreviation cached :=
  (SassPlugin.cached stat readFileSync sassRenderSync optionsTransform
     dirname typeOf resolve).
#[local] Abbreviation load :=
  (SassOptions.load readFileSync sassRenderSync optionsTransform dirname
     typeOf resolve).
#[local] Abbreviation cached_hit :=
  (CacheFacts.cached_hit stat readFileSync sassRenderSync optionsTransform
     dirname typeOf resolve).
#[local] Abbreviation cached_miss :=
  (CacheFacts.cached_miss stat readFileSync sassRenderSync optionsTransform
     dirname typeOf resolve).

Lemma collectStats_missing (files : list string) (f : string) :
  In f files → stat f = None → ∃ e, collectStats stat files = Throw e.
Proof.
  induction files as [|g files IH]; intros Hin Hf; [destruct Hin|].
  cbn [collectStats]. destruct Hin as [->|Hin].
  - rewrite Hf. eauto.
  - destruct (stat g); [|eauto].
    destruct (IH Hin Hf) as [e ->]. eauto.
Qed.

Lemma entry_stored (cache0 : Cache) (tr tr' : list (string * string))
    (dir path : string) (c' : CachedResult) (scope p : string) :
  entry {| cache := <[ dir := <[ path := c' ]> (default ∅ (cache0 !! dir)) ]>
                      cache0;
           transforms := tr |} scope p
  = if decide (scope = dir ∧ p = path) then Some c'
    else entry {| cache := cache0; transforms := tr' |} scope p.
Proof.
  unfold entry. cbn.
  destruct (decide (scope = dir)) as [->|Hs].
  - rewrite lookup_insert_eq. cbn.
    destruct (decide (p = path)) as [->|Hp].
    + rewrite lookup_insert_eq.
      destruct (decide (dir = dir ∧ path = path)) as [_|[]]; auto.
    + rewrite lookup_insert_ne by congruence.
      destruct (decide (dir = dir ∧ p = path)) as [[_ ?]|_]; [contradiction|].
      destruct (cache0 !! dir); cbn; [reflexivity|apply lookup_empty].
  - rewrite lookup_insert_ne by congruence.
    destruct (decide (scope = dir ∧ p = path)) as [[? _]|_]; [contradiction|].
    reflexivity.
Qed.

(** The three courses of a lookup: [transform] is not called and nothing
    is stored; it is called once and nothing is stored; it is called once
    and its result is stored under the key and returned. *)
Lemma cached_cases (args : OnResolveArgs) (st st' : Store) (out : Res Load.t) :
  cached args st = (st', out) →
  (transforms st' = transforms st
   ∧ ∀ scope p, entry st' scope p = entry st scope p)
  ∨ (∃ file type e,
        transforms st' = transforms st ++ [(file, type)]
        ∧ out = Throw e
        ∧ ∀ scope p, entry st' scope p = entry st scope p)
  ∨ (∃ file type c',
        transforms st' = transforms st ++ [(file, type)]
        ∧ transformResult file type = Ok (result c')
        ∧ out = Ok (result c')
        ∧ ∀ scope p,
            entry st' scope p
            = if decide (scope = resolveDir args ∧ p = path args)
              then Some c' else entry st scope p).
Proof.
  intros Hrun.
  destruct (entry st (resolveDir args) (path args)) as [c|] eqn:He.
  - rewrite (cached_hit args st c He) in Hrun.
    destruct (collectStats stat (Load.watchFiles (result c)))
      as [stats|e'] eqn:Hstats.
    2:{ injection Hrun as <- <-. left. auto. }
    destruct (first_stale (mtimeMs c) stats)
      as [Hfresh|(fresh & m & rest & -> & Hfresh & Hm)].
    { rewrite refresh_fresh in Hrun by exact Hfresh.
      injection Hrun as <- <-. left. auto. }
    destruct (Load.watchFiles (result c)) as [|first others] eqn:Hfiles.
    { apply collectStats_app in Hstats.
      rewrite List.length_app in Hstats. cbn in Hstats. lia. }
    rewrite (refresh_stale readFileSync sassRenderSync optionsTransform
               dirname _ _ c _ fresh rest m first others st
               Hfresh Hm Hfiles) in Hrun.
    cbv zeta in Hrun.
    destruct (transformResult first (SassPlugin.type c)) as [r|e'] eqn:Ht.
    + injection Hrun as <- <-. right; right.
      exists first, (SassPlugin.type c),
        {| type := SassPlugin.type c;
           mtimeMs := maxMtimeMs (fresh ++ m :: rest); result := r |}.
      cbn.
      split; [reflexivity|]. split; [exact Ht|]. split; [reflexivity|].
      intros scope p.
      apply (entry_stored (cache st) _ (transforms st)).
    + injection Hrun as <- <-. right; left.
      exists first, (SassPlugin.type c), e'. cbn. auto.
  - rewrite (cached_miss args st He) in Hrun. cbv zeta in Hrun.
    assert (Ht : transforms (withGroup (resolveDir args) st) = transforms st).
    { unfold withGroup. destruct (cache st !! resolveDir args); reflexivity. }
    destruct (resolve args) as [filename|e'].
    2:{ injection Hrun as <- <-. left. split; [exact Ht|].
        intros scope p. apply entry_withGroup. }
    destruct (transformResult filename (typeOf args)) as [r|e'] eqn:Hr.
    + destruct (collectStats stat (Load.watchFiles r)) as [stats|e'].
      * injection Hrun as <- <-. right; right.
        exists filename, (typeOf args),
          {| type := typeOf args; mtimeMs := maxMtimeMs stats; result := r |}.
        cbn. rewrite Ht.
        split; [reflexivity|]. split; [exact Hr|]. split; [reflexivity|].
        intros scope p.
        rewrite (entry_stored (cache (withGroup (resolveDir args) st)) _
                   (transforms (withGroup (resolveDir args) st))).
        destruct (decide _); [reflexivity|].
        destruct (withGroup (resolveDir args) st) eqn:Hw.
        rewrite <- Hw. apply entry_withGroup.
      * injection Hrun as <- <-. right; left.
        exists filename, (typeOf args), e'. cbn. rewrite Ht.
        split; [reflexivity|]. split; [reflexivity|].
        intros scope p.
        apply (entry_withGroup (resolveDir args) scope p st).
    + injection Hrun as <- <-. right; left.
      exists filename, (typeOf args), e'. cbn. rewrite Ht.
      split; [reflexivity|]. split; [reflexivity|].
      intros scope p.
      apply (entry_withGroup (resolveDir args) scope p st).
Qed.

(** X13.  A cache hit: when no dependency file of an entry is newer than
    the entry's mark, a lookup of its key returns the stored result,
    calls no [transform] and leaves the store as it is. *)
Theorem fresh_entry_is_served (args : OnResolveArgs) (st : Store)
    (c : CachedResult) (stats : list Q) :
  entry st (resolveDir args) (path args) = Some c →
  collectStats stat (Load.watchFiles (result c)) = Ok stats →
  (∀ m, In m stats → (m <= mtimeMs c)%Q) →
  cached args st = (st, Ok (result c)).
Proof.
  intros He Hstats Hfresh.
  rewrite (cached_hit args st c He), Hstats.
  now rewrite refresh_fresh.
Qed.

(** X14.  An entry whose result lists no watch file never expires: every
    lookup of its key is a hit, whatever the file system holds. *)
Theorem entry_without_dependencies_never_expires (args : OnResolveArgs)
    (st : Store) (c : CachedResult) :
  entry st (resolveDir args) (path args) = Some c →
  Load.watchFiles (result c) = [] →
  cached args st = (st, Ok (result c)).
Proof.
  intros He Hfiles. rewrite (cached_hit args st c He), Hfiles. reflexivity.
Qed.

(** X15.  A dependency that has disappeared: when [stat] fails for a
    watch file of an entry, a lookup of its key throws; [transform] is
    not called and the store, the entry included, stays as it is. *)
Theorem missing_dependency_throws (args : OnResolveArgs) (st : Store)
    (c : CachedResult) (f : string) :
  entry st (resolveDir args) (path args) = Some c →
  In f (Load.watchFiles (result c)) →
  stat f = None →
  ∃ e, cached args st = (st, Throw e).
Proof.
  intros He Hin Hf.
  destruct (collectStats_missing _ f Hin Hf) as [e Hstats].
  exists e. now rewrite (cached_hit args st c He), Hstats.
Qed.

(** X16.  A result that cannot be dated is not stored: on a miss, when
    [transform] returns but [stat] fails for one of the result's watch
    files, the lookup throws although the transform succeeded, one call
    of [transform] is logged, and the key still has no entry. *)
Theorem unstatable_result_is_not_stored (args : OnResolveArgs) (st : Store)
    (filename : string) (r : Load.t) (f : string) :
  entry st (resolveDir args) (path args) = None →
  resolve args = Ok filename →
  transformResult filename (typeOf args) = Ok r →
  In f (Load.watchFiles r) →
  stat f = None →
  ∃ st' e, cached args st = (st', Throw e)
           ∧ transforms st' = transforms st ++ [(filename, typeOf args)]
           ∧ ∀ scope p, entry st' scope p = entry st scope p.
Proof.
  intros He Hres Ht Hin Hf.
  destruct (collectStats_missing _ f Hin Hf) as [e Hstats].
  rewrite (cached_miss args st He). cbv zeta. rewrite Hres, Ht, Hstats.
  eexists _, e. split; [reflexivity|]. cbn. split.
  - unfold withGroup. destruct (cache st !! resolveDir args); reflexivity.
  - intros scope p. apply (entry_withGroup (resolveDir args) scope p st).
Qed.

(** X17.  A lookup changes its own key only: the entry of every other
    (scope, path) key is the same after the lookup, and no entry is ever
    removed.  (The groups of the cache are distinct maps, as in a cache
    the plugin creates.) *)
Theorem lookup_touches_own_key_only (args : OnResolveArgs) (st st' : Store)
    (out : Res Load.t) (scope p : string) :
  cached args st = (st', out) →
  (¬ (scope = resolveDir args ∧ p = path args) →
   entry st' scope p = entry st scope p)
  ∧ (is_Some (entry st scope p) → is_Some (entry st' scope p)).
Proof.
  intros Hrun.
  destruct (cached_cases args st st' out Hrun)
    as [[_ H]|[(file & t & e & _ & _ & H)|(file & t & c' & _ & _ & _ & H)]];
    rewrite H; try (split; auto).
  - intros Hne. destruct (decide _); [contradiction|reflexivity].
  - intros Hs. destruct (decide _); [eauto|exact Hs].
Qed.

(** X18.  One lookup calls [transform] at most once; when it has called
    it and returns a result, that result is what [transform] returned and
    what the key's entry holds afterwards. *)
Theorem at_most_one_transform (args : OnResolveArgs) (st st' : Store)
    (out : Res Load.t) :
  cached args st = (st', out) →
  transforms st' = transforms st
  ∨ ∃ file type,
      transforms st' = transforms st ++ [(file, type)]
      ∧ ∀ r, out = Ok r →
             transformResult file type = Ok r
             ∧ ∃ c', entry st' (resolveDir args) (path args) = Some c'
                     ∧ result c' = r.
Proof.
  intros Hrun.
  destruct (cached_cases args st st' out Hrun)
    as [[H _]|[(file & t & e & H & -> & _)|(file & t & c' & H & Ht & -> & He)]].
  - left. exact H.
  - right. exists file, t. split; [exact H|]. intros r [=].
  - right. exists file, t. split; [exact H|]. intros r [= <-].
    split; [exact Ht|]. exists c'. split; [|reflexivity].
    rewrite He. destruct (decide _) as [_|Hne]; [reflexivity|].
    destruct Hne. auto.
Qed.

(** X19.  The cache is transparent on a miss: a lookup of a key without
    entry throws what the plugin without cache throws, and returns what
    the plugin without cache returns, unless [stat] fails for a watch
    file of that result, in which case the lookup throws. *)
Theorem cache_transparent_on_miss (args : OnResolveArgs) (st st' : Store)
    (out : Res Load.t) :
  entry st (resolveDir args) (path args) = None →
  cached args st = (st', out) →
  match (load args st).2 with
  | Throw e => out = Throw e
  | Ok r =>
      match collectStats stat (Load.watchFiles r) with
      | Ok _ => out = Ok r
      | Throw e => out = Throw e
      end
  end.
Proof.
  intros He Hrun.
  rewrite (cached_miss args st He) in Hrun. cbv zeta in Hrun.
  unfold SassOptions.load, bind, lift, SassPlugin.transform, bind,
    logTransform, lift.
  destruct (resolve args) as [filename|e]; cbn.
  2:{ now injection Hrun as <- <-. }
  destruct (transformResult filename (typeOf args)) as [r|e]; cbn.
  2:{ now injection Hrun as <- <-. }
  destruct (collectStats stat (Load.watchFiles r));
    now injection Hrun as <- <-.
Qed.

End Plugin.

(** *** Instances *)

Lemma fresh_entry_is_served_witness :
  let st := (CacheExamples.lookup "a.scss" CacheExamples.empty).1 in
  CacheExamples.lookup "a.scss" st
  = (st, Ok (Load.make "a{b:c}" "css" "src" ["src/a.scss"; "src/b.scss"])).
Proof.
  cbv zeta.
  apply (fresh_entry_is_served CacheExamples.stat CacheExamples.readFileSync
           CacheExamples.sassRenderSync None CacheExamples.dirname
           CacheExamples.typeOf CacheExamples.resolve
           (CacheExamples.args "a.scss")
           (CacheExamples.lookup "a.scss" CacheExamples.empty).1
           {| type := "css"; mtimeMs := 200%Q;
              result := Load.make "a{b:c}" "css" "src"
                          ["src/a.scss"; "src/b.scss"] |}
           [200%Q; 150%Q]).
  - vm_compute. reflexivity.
  - vm_compute. reflexivity.
  - intros m [<-|[<-|[]]]; vm_compute; discriminate.
Defined.

Lemma entry_without_dependencies_never_expires_witness :
  CacheExamples.lookup "c.scss" LookupExamples.noDependencies
  = (LookupExamples.noDependencies, Ok (Load.make "a{}" "css" "src" [])).
Proof.
  apply (entry_without_dependencies_never_expires CacheExamples.stat
           CacheExamples.readFileSync CacheExamples.sassRenderSync None
           CacheExamples.dirname CacheExamples.typeOf CacheExamples.resolve
           (CacheExamples.args "c.scss") LookupExamples.noDependencies
           LookupExamples.constant).
  - vm_compute. reflexivity.
  - reflexivity.
Defined.

Lemma missing_dependency_throws_witness :
  ∃ e, CacheExamples.lookup "o.scss" LookupExamples.orphaned
       = (LookupExamples.orphaned, Throw e).
Proof.
  apply (missing_dependency_throws CacheExamples.stat
           CacheExamples.readFileSync CacheExamples.sassRenderSync None
           CacheExamples.dirname CacheExamples.typeOf CacheExamples.resolve
           (CacheExamples.args "o.scss") LookupExamples.orphaned
           LookupExamples.orphan "src/gone.scss").
  - vm_compute. reflexivity.
  - right. left. reflexivity.
  - reflexivity.
Defined.

Lemma unstatable_result_is_not_stored_witness :
  ∃ st' e,
    CacheExamples.lookup "x.css" CacheExamples.empty = (st', Throw e)
    ∧ transforms st' = transforms CacheExamples.empty ++ [("src/x.css", "css")]
    ∧ ∀ scope p, entry st' scope p = entry CacheExamples.empty scope p.
Proof.
  apply (unstatable_result_is_not_stored CacheExamples.stat
           CacheExamples.readFileSync CacheExamples.sassRenderSync None
           CacheExamples.dirname CacheExamples.typeOf CacheExamples.resolve
           (CacheExamples.args "x.css") CacheExamples.empty "src/x.css"
           (Load.make "body{}" "css" "src" ["src/x.css"]) "src/x.css").
  - reflexivity.
  - reflexivity.
  - vm_compute. reflexivity.
  - left. reflexivity.
  - reflexivity.
Defined.

Lemma lookup_touches_own_key_only_witness :
  let run := CacheExamples.lookup "a.scss" LookupExamples.orphaned in
  (¬ ("src" = "src" ∧ "o.scss" = "a.scss") →
   entry run.1 "src" "o.scss" = entry LookupExamples.orphaned "src" "o.scss")
  ∧ (is_Some (entry LookupExamples.orphaned "src" "o.scss") →
     is_Some (entry run.1 "src" "o.scss")).
Proof.
  cbv zeta.
  apply (lookup_touches_own_key_only CacheExamples.stat
           CacheExamples.readFileSync CacheExamples.sassRenderSync None
           CacheExamples.dirname CacheExamples.typeOf CacheExamples.resolve
           (CacheExamples.args "a.scss") LookupExamples.orphaned
           (CacheExamples.lookup "a.scss" LookupExamples.orphaned).1
           (CacheExamples.lookup "a.scss" LookupExamples.orphaned).2
           "src" "o.scss").
  vm_compute. reflexivity.
Defined.

Lemma at_most_one_transform_witness :
  let run := CacheExamples.lookup "a.scss" CacheExamples.stale in
  transforms run.1 = transforms CacheExamples.stale
  ∨ ∃ file type,
      transforms run.1 = transforms CacheExamples.stale ++ [(file, type)]
      ∧ ∀ r, run.2 = Ok r →
             SassPlugin.transformResult CacheExamples.readFileSync
               CacheExamples.sassRenderSync None CacheExamples.dirname
               file type = Ok r
             ∧ ∃ c', entry run.1 "src" "a.scss" = Some c' ∧ result c' = r.
Proof.
  cbv zeta.
  apply (at_most_one_transform CacheExamples.stat
           CacheExamples.readFileSync CacheExamples.sassRenderSync None
           CacheExamples.dirname CacheExamples.typeOf CacheExamples.resolve
           (CacheExamples.args "a.scss") CacheExamples.stale
           (CacheExamples.lookup "a.scss" CacheExamples.stale).1
           (CacheExamples.lookup "a.scss" CacheExamples.stale).2).
  vm_compute. reflexivity.
Defined.

Lemma cache_transparent_on_miss_witness :
  (CacheExamples.lookup "a.scss" CacheExamples.empty).2
  = Ok (Load.make "a{b:c}" "css" "src" ["src/a.scss"; "src/b.scss"]).
Proof.
  apply (cache_transparent_on_miss CacheExamples.stat
           CacheExamples.readFileSync CacheExamples.sassRenderSync None
           CacheExamples.dirname CacheExamples.typeOf CacheExamples.resolve
           (CacheExamples.args "a.scss") CacheExamples.empty
           (CacheExamples.lookup "a.scss" CacheExamples.empty).1
           (CacheExamples.lookup "a.scss" CacheExamples.empty).2).
  - reflexivity.
  - vm_compute. reflexivity.
Defined.

(** *** The module templates *)

Lemma backslash_needsEscape : Js.needsEscape Js.backslash = true.
Proof. reflexivity. Qed.

Lemma includes_char (c a : ascii) (s : string) :
  Js.includes (String a s) (String c EmptyString) = false →
  Ascii.eqb a c = false ∧ Js.includes s (String c EmptyString) = false.
Proof.
  unfold Js.includes, Js.indexOf, Js.indexOfFrom. rewrite index_here.
  assert (Hp : String.prefix (String c EmptyString) (String a s)
               = if ascii_dec c a then true else false).
  { simpl. destruct (ascii_dec c a); [destruct s|]; reflexivity. }
  rewrite Hp. destruct (ascii_dec c a) as [->|Hne].
  - intros H. discriminate H.
  - intros H. split.
    + apply Ascii.eqb_neq. congruence.
    + destruct (String.index 0 (String c EmptyString) s); [discriminate|].
      reflexivity.
Qed.

Lemma escapeTemplate_inj (s : string) :
  ∀ s', Js.escapeTemplate s' = Js.escapeTemplate s → s' = s.
Proof.
  induction s as [|a s IH]; intros [|a' s'] Heq; cbn [Js.escapeTemplate] in Heq.
  - reflexivity.
  - destruct (Js.needsEscape a'); discriminate.
  - destruct (Js.needsEscape a); discriminate.
  - destruct (Js.needsEscape a) eqn:Ha, (Js.needsEscape a') eqn:Ha'.
    + injection Heq as -> Heq. f_equal. apply IH, Heq.
    + injection Heq as -> Heq. rewrite backslash_needsEscape in Ha'.
      discriminate.
    + injection Heq as <- Heq. rewrite backslash_needsEscape in Ha.
      discriminate.
    + injection Heq as -> Heq. f_equal. apply IH, Heq.
Qed.

(** What [escapeTemplate] writes is always the text of a template
    literal. *)
Lemma cook_escapeTemplate_tail (s : string) :
  (∃ v, cook (Js.escapeTemplate s) = Some v)
  ∧ match s with
    | String _ s0 => ∃ v, cook (Js.escapeTemplate s0) = Some v
    | EmptyString => True
    end.
Proof.
  induction s as [|a s [[v IH1] IH2]]; [split; [eexists; reflexivity|exact I]|].
  split; [|exists v; exact IH1].
  cbn [Js.escapeTemplate]. destruct (Js.needsEscape a) eqn:Ha.
  - cbn [cook]. rewrite Ascii.eqb_refl, Ha, IH1. eexists; reflexivity.
  - cbn [cook]. destruct (Ascii.eqb a Js.backslash) eqn:Hb.
    { apply Ascii.eqb_eq in Hb. subst a.
      rewrite backslash_needsEscape in Ha. discriminate. }
    rewrite Ha. destruct (Ascii.eqb a cr) eqn:Hcr.
    + destruct s as [|b s0]; [eexists; reflexivity|].
      destruct IH2 as [v0 IH2].
      cbn [Js.escapeTemplate] in *. destruct (Js.needsEscape b) eqn:Hnb.
      * change (Ascii.eqb Js.backslash lf) with false. cbv iota.
        rewrite IH1. eexists; reflexivity.
      * destruct (Ascii.eqb b lf).
        -- rewrite IH2. eexists; reflexivity.
        -- rewrite IH1. eexists; reflexivity.
    + rewrite IH1. eexists; reflexivity.
Qed.

Lemma cook_escapeTemplate (s : string) :
  ∃ v, cook (Js.escapeTemplate s) = Some v.
Proof. apply cook_escapeTemplate_tail. Qed.

(** X20.  Escaping round trip: the text [escapeTemplate] writes into the
    template literal of a generated module has no bare dollar sign or
    backquote, and for a css text without carriage return it evaluates
    to the css text it was made from (a template literal reads a carriage
    return as a line feed); two css texts are never escaped to the same
    text. *)
Theorem escapeTemplate_roundtrip (css : string) :
  (Js.includes css (String cr EmptyString) = false →
   cook (Js.escapeTemplate css) = Some css)
  ∧ (∃ v, cook (Js.escapeTemplate css) = Some v)
  ∧ ∀ css', Js.escapeTemplate css' = Js.escapeTemplate css → css' = css.
Proof.
  split; [|split].
  - induction css as [|a s IH]; [reflexivity|].
    intros [Hcr Hs]%includes_char. specialize (IH Hs).
    cbn [Js.escapeTemplate]. destruct (Js.needsEscape a) eqn:Ha.
    + cbn [cook]. rewrite Ascii.eqb_refl, Ha, IH. reflexivity.
    + cbn [cook].
      destruct (Ascii.eqb a Js.backslash) eqn:Hb.
      * apply Ascii.eqb_eq in Hb. subst a.
        rewrite backslash_needsEscape in Ha. discriminate.
      * rewrite Ha, Hcr, IH. reflexivity.
  - apply cook_escapeTemplate.
  - apply escapeTemplate_inj.
Qed.

(** A css text with a dollar sign and a backquote comes back as it was. *)
Lemma escapeTemplate_roundtrip_witness :
  cook (Js.escapeTemplate "a{b:$c`}") = Some "a{b:$c`}".
Proof.
  apply (proj1 (escapeTemplate_roundtrip "a{b:$c`}")). reflexivity.
Defined.

(** *** The type of a module *)

Section Matchers.

Variable picomatch : string → string → bool.
Variable pathResolve : string → string → string.

#[local] Abbreviation isMatch := (SassOptions.isMatch picomatch pathResolve).
#[local] Abbreviation typeOf := (SassOptions.typeOf picomatch pathResolve).

(** X21.  The first match decides: with an array of types, the type of a
    module is the type of the first entry whose matcher accepts the
    arguments, and ["css"] when no entry accepts them. *)
Theorem first_match_decides (entries : list (string * Pattern))
    (args : OnResolveArgs) (t : string) :
  typeOf (TypeArray entries) args = t ↔
    (∃ pre p post, entries = pre ++ (t, p) :: post
                   ∧ isMatch p args = true
                   ∧ Forall (λ e, isMatch e.2 args = false) pre)
    ∨ (Forall (λ e, isMatch e.2 args = false) entries ∧ t = "css").
Proof.
  cbn [SassOptions.typeOf defaultType].
  induction entries as [|[t0 p0] entries IH]; cbn [firstMatch].
  - split.
    + intros <-. right. split; [constructor|reflexivity].
    + intros [(pre & p & post & H & _)|[_ ->]]; [|reflexivity].
      destruct pre; discriminate.
  - destruct (isMatch p0 args) eqn:Hm.
    + split.
      * intros <-. left. exists [], p0, entries.
        split; [reflexivity|]. split; [exact Hm|constructor].
      * intros [(pre & p & post & H & Hp & Hpre)|[Hall _]].
        -- destruct pre as [|e pre].
           ++ now injection H as -> _ _.
           ++ injection H as <- _. apply Forall_cons in Hpre as [He _].
              cbn in He. congruence.
        -- apply Forall_cons in Hall as [He _]. cbn in He. congruence.
    + rewrite IH. split.
      * intros [(pre & p & post & -> & Hp & Hpre)|[Hall ->]].
        -- left. exists ((t0, p0) :: pre), p, post.
           split; [reflexivity|]. split; [exact Hp|].
           constructor; [exact Hm|exact Hpre].
        -- right. split; [|reflexivity]. constructor; [exact Hm|exact Hall].
      * intros [(pre & p & post & H & Hp & Hpre)|[Hall ->]].
        -- destruct pre as [|e pre].
           ++ injection H as _ -> _. congruence.
           ++ injection H as <- ->. apply Forall_cons in Hpre as [_ Hpre].
              left. exists pre, p, post. auto.
        -- apply Forall_cons in Hall as [_ Hall]. right. auto.
Qed.

(** X22.  A catch-all entry ends the list: an entry without pattern (or
    with the empty string as its pattern) accepts every module, so the
    entries after it never decide a type. *)
Theorem catch_all_shadows (pre post : list (string * Pattern)) (t : string)
    (p : Pattern) (args : OnResolveArgs) :
  p = Single None ∨ p = Single (Some EmptyString) →
  typeOf (TypeArray (pre ++ (t, p) :: post)) args
  = typeOf (TypeArray (pre ++ [(t, p)])) args.
Proof.
  intros Hp. cbn [SassOptions.typeOf defaultType].
  assert (Hm : isMatch p args = true) by (destruct Hp as [-> | ->]; reflexivity).
  induction pre as [|[t0 p0] pre IH]; cbn [app firstMatch].
  - now rewrite Hm.
  - destruct (isMatch p0 args); [reflexivity|exact IH].
Qed.

End Matchers.

Lemma first_match_decides_witness :
  let args := CacheExamples.args "a.lit.scss" in
  SassOptions.typeOf LookupExamples.picomatch LookupExamples.pathResolve
    LookupExamples.types args = "lit-css".
Proof.
  cbv zeta.
  apply (first_match_decides LookupExamples.picomatch
           LookupExamples.pathResolve).
  left. exists [("style", Pair "main.ts" None)], (Single (Some ".lit.scss")),
    [("css-text", Single None); ("css", Single (Some ".scss"))].
  split; [reflexivity|]. split; [vm_compute; reflexivity|].
  constructor; [vm_compute; reflexivity|constructor].
Defined.

Lemma catch_all_shadows_witness :
  let args := CacheExamples.args "a.scss" in
  SassOptions.typeOf LookupExamples.picomatch LookupExamples.pathResolve
    LookupExamples.types args
  = SassOptions.typeOf LookupExamples.picomatch LookupExamples.pathResolve
      (TypeArray [("style", Pair "main.ts" None);
                  ("lit-css", Single (Some ".lit.scss"));
                  ("css-text", Single None)]) args.
Proof.
  cbv zeta.
  apply (catch_all_shadows LookupExamples.picomatch LookupExamples.pathResolve
           [("style", Pair "main.ts" None);
            ("lit-css", Single (Some ".lit.scss"))]
           [("css", Single (Some ".scss"))] "css-text" (Single None)).
  left. reflexivity.
Defined.

End LookupFacts.

(* ===================================================================== *)
(** * The controller: input keys and the recorded watch sets *)
(* ===================================================================== *)

Module InputFacts.

Import IncrementalBuild Spec ClassifyFacts WatchFacts.

(** X23.  The input of a metafile key: a key without colon is the input
    itself; of [scheme:path] the input is [path]; and of a key with more
    colons only the text between the first two is kept. *)
Theorem inputOf_between_colons (a b c : string) :
  ¬ occurs ":" a → ¬ occurs ":" b →
  inputOf a = a
  ∧ inputOf (a +:+ ":" +:+ b) = b
  ∧ inputOf (a +:+ ":" +:+ b +:+ ":" +:+ c) = b.
Proof.
  intros Ha Hb.
  split; [now apply inputOf_plain|]. split; [now apply inputOf_scheme|].
  unfold inputOf.
  assert (Js.includes (a +:+ ":" +:+ b +:+ ":" +:+ c) ":" = true) as ->.
  { apply includes_occurs. exists a, (b +:+ ":" +:+ c). reflexivity. }
  change (a +:+ ":" +:+ b +:+ ":" +:+ c)
    with (a +:+ String ":"%char (b +:+ String ":"%char c)).
  rewrite split_at, split_at; [reflexivity| |].
  - intros u v ->. apply Hb, occurs_colon. eauto.
  - intros u v ->. apply Ha, occurs_colon. eauto.
Qed.

Lemma inputOf_between_colons_witness :
  inputOf "sass" = "sass"
  ∧ inputOf ("sass" +:+ ":" +:+ "C") = "C"
  ∧ inputOf ("sass" +:+ ":" +:+ "C" +:+ ":" +:+ "/src/a.scss") = "C".
Proof.
  apply (inputOf_between_colons "sass" "C" "/src/a.scss").
  - intros H. apply not_includes_occurs in H; [exact H|reflexivity].
  - intros H. apply not_includes_occurs in H; [exact H|reflexivity].
Defined.

(** X24.  The recorded watch sets stay empty: nothing the controller does
    writes [watchedInputs] or [watchedModules], so in every reachable
    state the lists handed to [unwatch] are empty and [unwatch] removes
    no path: watched paths only ever go away through [close]. *)
Theorem watched_sets_stay_empty (s : State) (added : gset string)
    (w : Watcher) :
  reachable s →
  watchedInputs s = ∅ ∧ watchedModules s = ∅
  ∧ removedFrom (watchedInputs s) added = []
  ∧ removedFrom (watchedModules s) added = []
  ∧ unwatch (removedFrom (watchedInputs s) added) w = w
  ∧ unwatch (removedFrom (watchedModules s) added) w = w.
Proof.
  intros Hreach. destruct (reachable_watched s Hreach) as [-> ->].
  rewrite removedFrom_empty.
  assert (H : unwatch [] w = w).
  { destruct w as [ps n]. unfold unwatch. cbn. f_equal.
    apply set_eq. intros x. rewrite elem_of_difference. split.
    - intros [H _]. exact H.
    - intros H. split; [exact H|]. apply not_elem_of_empty. }
  auto 10.
Qed.

Lemma watched_sets_stay_empty_witness :
  let s := Examples.armed1 in
  watchedInputs s = ∅ ∧ watchedModules s = ∅
  ∧ removedFrom (watchedInputs s) {[ "src/a.ts" ]} = []
  ∧ removedFrom (watchedModules s) {[ "src/a.ts" ]} = []
  ∧ unwatch (removedFrom (watchedInputs s) {[ "src/a.ts" ]})
      (inputWatcher Examples.armed1) = inputWatcher Examples.armed1
  ∧ unwatch (removedFrom (watchedModules s) {[ "src/a.ts" ]})
      (inputWatcher Examples.armed1) = inputWatcher Examples.armed1.
Proof.
  apply (watched_sets_stay_empty Examples.armed1 {[ "src/a.ts" ]}
           (inputWatcher Examples.armed1)).
  eexists; reflexivity.
Defined.

End InputFacts.

(* ===================================================================== *)
(** * The request handler: the fallback *)
(* ===================================================================== *)

Module FallbackFacts.

Import Serve.

Section Server.

Variable Disk : Type.
Variable StaticReply : Type.
Variable URL : Type.
Variable serveStatic : Disk → string → bool → Request → option StaticReply.
Variable stripPublicPath : string → URL → option string.

Ltac settle_cases :=
  repeat match goal with
         | |- _ ∧ _ => split
         | |- _ ↔ _ => split
         | |- _ ≠ _ => intro
         | |- ∀ _, _ => intro
         | H : _ ∧ _ |- _ => destruct H
         | H : ∃ _, _ |- _ => destruct H
         end;
  try discriminate; try congruence; auto.

(** The static handlers call [next] only when neither middleware
    answers. *)
Lemma staticHandler_next (cfg : Config) (disk : Disk) (req : Request)
    (next : unit → Response StaticReply) :
  (∀ reply, next tt ≠ Static reply) →
  staticHandler serveStatic cfg disk req next = next tt
  ↔ unanswered serveStatic cfg disk req.
Proof.
  intros Hnext.
  unfold unanswered, staticHandler, servedirHandler, outputHandler,
    middleware, secondaryRoot.
  destruct (servedir cfg) as [dir|]; [destruct (truthy dir)|].
  - destruct (serveStatic disk dir true req) as [reply|] eqn:H1.
    + split.
      * intros H. symmetry in H. destruct (Hnext _ H).
      * intros [H _]. specialize (H dir eq_refl). congruence.
    + destruct (serveStatic disk (absOutDir cfg) false req) as [reply|].
      * split.
        -- intros H. symmetry in H. destruct (Hnext _ H).
        -- intros [_ H]. discriminate.
      * split; [|reflexivity]. intros _. split; [|reflexivity].
        intros d [= <-]. exact H1.
  - destruct (serveStatic disk (absOutDir cfg) false req) as [reply|].
    + split.
      * intros H. symmetry in H. destruct (Hnext _ H).
      * intros [_ H]. discriminate.
    + split; [|reflexivity]. intros _. split; [|reflexivity].
      intros d [=].
  - destruct (serveStatic disk (absOutDir cfg) false req) as [reply|].
    + split.
      * intros H. symmetry in H. destruct (Hnext _ H).
      * intros [_ H]. discriminate.
    + split; [|reflexivity]. intros _. split; [|reflexivity].
      intros d [=].
Qed.

(** X25.  When the server answers with 404, with the output of the HTML
    entry, or with 500.  The 404 response is given exactly when the
    rewrite mode is off and neither static middleware answers the
    request; the output of the HTML entry exactly when the rewrite mode
    is on and neither answers; the status 500 exactly when the rewriting
    of the URL by the public path throws.  So with the rewrite mode on
    no request is answered with 404, whatever the disk holds. *)
Theorem fallback_follows_rewrite_mode (cfg : Config) (disk : Disk)
    (parsed : URL) (req : Request) :
  let answer := handleRequest_settled serveStatic stripPublicPath cfg disk
                  parsed req in
  let fallsThrough :=
    ∃ req', served stripPublicPath cfg parsed req = Some req'
            ∧ unanswered serveStatic cfg disk req' in
  (answer = NotFound ↔ rewrite cfg = false ∧ fallsThrough)
  ∧ (∀ file, answer = IndexHtml file ↔
             rewrite cfg = true ∧ file = indexPath cfg ∧ fallsThrough)
  ∧ (answer = ServerError ↔ served stripPublicPath cfg parsed req = None)
  ∧ (rewrite cfg = true → answer ≠ NotFound).
Proof.
  cbv zeta. unfold handleRequest_settled.
  destruct (served stripPublicPath cfg parsed req) as [req'|].
  - set (next := λ _ : unit,
                   if rewrite cfg then IndexHtml (StaticReply := StaticReply)
                                         (indexPath cfg)
                   else NotFound).
    assert (Hnext : ∀ reply, next tt ≠ Static reply).
    { intros reply. unfold next. destruct (rewrite cfg); discriminate. }
    pose proof (staticHandler_next cfg disk req' next Hnext) as Hiff.
    assert (Hcase : (∃ reply, staticHandler serveStatic cfg disk req' next
                              = Static reply)
                    ∨ staticHandler serveStatic cfg disk req' next = next tt).
    { unfold staticHandler, servedirHandler, outputHandler, middleware.
      destruct (servedir cfg) as [dir|]; [destruct (truthy dir)|];
        repeat match goal with
               | |- context [serveStatic ?d ?r ?f ?q] =>
                   destruct (serveStatic d r f q)
               end; eauto. }
    assert (Hft : (∃ r0, Some req' = Some r0
                         ∧ unanswered serveStatic cfg disk r0)
                  ↔ unanswered serveStatic cfg disk req').
    { split; [intros (r0 & [= <-] & H); exact H|eauto]. }
    setoid_rewrite Hft. setoid_rewrite <- Hiff.
    revert Hcase.
    generalize (staticHandler serveStatic cfg disk req' next).
    unfold next. intros A [[reply ->]| ->]; destruct (rewrite cfg);
      settle_cases.
  - settle_cases.
Qed.

End Server.

(** The rewrite mode is on and neither root holds [/settings]: the
    output of the HTML entry is served, not the 404 response. *)
Lemma fallback_follows_rewrite_mode_witness :
  let answer := handleRequest_settled ServeExamples.serveStatic
                  ServeExamples.stripPublicPath ServeExamples.cfg tt
                  "/settings" {| url := Some "/settings" |} in
  answer ≠ NotFound.
Proof.
  cbv zeta.
  destruct (fallback_follows_rewrite_mode unit string string
              ServeExamples.serveStatic ServeExamples.stripPublicPath
              ServeExamples.cfg tt "/settings" {| url := Some "/settings" |})
    as (_ & _ & _ & H).
  apply H. reflexivity.
Defined.

End FallbackFacts.
